(** * loopback-mongodb-migrate: the migration service

    A shallow embedding of [src/services/migration.service.ts] and the
    properties of its migration engine: pending-set computation, ordering,
    forward and reverse execution, ledger writes, the timestamped file name
    and the database backup.

    A JavaScript string is a sequence of code units.  This development
    covers the code units below 256 (Latin-1): a [string] is read as that
    sequence, one [ascii] per code unit, not as UTF-8 bytes.  The relational
    operators of JavaScript on strings compare code units lexicographically,
    as [String.compare] does. *)

From Stdlib Require Import List String Ascii ZArith NArith Bool Lia.
From Stdlib Require Import DecimalString Permutation Sorted.
Import ListNotations.

Local Open Scope string_scope.
Local Open Scope list_scope.

(** ** JavaScript string and array primitives used by the service *)

Module JS.

(** [WhiteSpace] and [LineTerminator] code units below 256:
    TAB, LF, VT, FF, CR, SP, NBSP. *)
Definition isWhiteSpace (c : ascii) : bool :=
  let n := N_of_ascii c in
  ((9 <=? n) && (n <=? 13) || (n =? 32) || (n =? 160))%N.

Fixpoint trimStart (s : string) : string :=
  match s with
  | EmptyString => EmptyString
  | String c r => if isWhiteSpace c then trimStart r else s
  end.

Fixpoint trimEnd (s : string) : string :=
  match s with
  | EmptyString => EmptyString
  | String c r =>
      match trimEnd r with
      | EmptyString => if isWhiteSpace c then EmptyString else String c EmptyString
      | r' => String c r'
      end
  end.

(** String.prototype.trim *)
Definition trim (s : string) : string := trimEnd (trimStart s).

(** Lower-case mapping of one code unit: A-Z, and the Latin-1 capitals
    U+00C0..U+00DE except the multiplication sign U+00D7. *)
Definition lowerChar (c : ascii) : ascii :=
  let n := N_of_ascii c in
  if ((65 <=? n) && (n <=? 90))%N then ascii_of_N (n + 32)
  else if ((192 <=? n) && (n <=? 222) && negb (n =? 215))%N then ascii_of_N (n + 32)
  else c.

Fixpoint mapChars (f : ascii -> ascii) (s : string) : string :=
  match s with
  | EmptyString => EmptyString
  | String c r => String (f c) (mapChars f r)
  end.

(** String.prototype.toLowerCase *)
Definition toLowerCase (s : string) : string := mapChars lowerChar s.

(** [s.replace(/_/g, '-')] *)
Definition replaceUnderscores (s : string) : string :=
  mapChars (fun c => if Ascii.eqb c "_" then "-"%char else c) s.

(** The [.] of a regular expression without the [s] flag matches any code
    unit but a line terminator (LF and CR in this range). *)
Definition isLineTerminator (c : ascii) : bool :=
  (Ascii.eqb c "010" || Ascii.eqb c "013")%bool.

(** [s.replace(/(.ts)$/g, '')]: the pattern matches three code units at the
    end of the input, any one but a line terminator followed by [ts]. *)
Fixpoint replaceDotTsAtEnd (s : string) : string :=
  match s with
  | EmptyString => EmptyString
  | String c r =>
      if (r =? "ts") && negb (isLineTerminator c) then EmptyString
      else String c (replaceDotTsAtEnd r)
  end.

(** [s.split(sep)] for a separator of one code unit: the segments between
    the occurrences of [sep]; never the empty array. *)
Fixpoint split (sep : ascii) (s : string) : list string :=
  match s with
  | EmptyString => [EmptyString]
  | String c r =>
      if Ascii.eqb c sep then EmptyString :: split sep r
      else match split sep r with
           | [] => [String c EmptyString]
           | seg :: segs => String c seg :: segs
           end
  end.

(** [a.shift()] as far as the array is concerned: the first element goes. *)
Definition shift {A : Type} (a : list A) : list A := tl a.

(** [a.join(sep)] *)
Fixpoint join (sep : string) (a : list string) : string :=
  match a with
  | [] => EmptyString
  | [x] => x
  | x :: rest => (x ++ sep ++ join sep rest)%string
  end.

(** [s.includes(t)]: [t] occurs in [s] at some position. *)
Fixpoint includes (s t : string) : bool :=
  String.prefix t s ||
  match s with
  | EmptyString => false
  | String _ r => includes r t
  end.

(** [n.toString()] for an integer [n]. *)
Definition toString (n : Z) : string := NilZero.string_of_int (Z.to_int n).

Fixpoint repeatTo (fuel : nat) (n : nat) (pad cur : string) : string :=
  match n with
  | O => EmptyString
  | S n' =>
      match cur with
      | String c r => String c (repeatTo fuel n' pad r)
      | EmptyString =>
          match fuel, pad with
          | S fuel', String c r => String c (repeatTo fuel' n' pad r)
          | _, _ => EmptyString
          end
      end
  end.

(** [s.padStart(targetLength, padString)]: [padString] repeated and cut to
    the missing length goes in front; nothing happens when [s] is long
    enough or [padString] is empty. *)
Definition padStart (s : string) (targetLength : nat) (padString : string) : string :=
  let fillLen := (targetLength - String.length s)%nat in
  (repeatTo fillLen fillLen padString padString ++ s)%string.

(** Truthiness of a possibly undefined string: [undefined] and [''] are
    falsy. *)
Definition truthy (o : option string) : bool :=
  match o with
  | Some s => negb (s =? "")
  | None => false
  end.

End JS.

(** ** The clock *)

(** What the service reads from a [Date]: the local wall-clock fields and
    the ISO rendering (which depends on the time zone and the milliseconds,
    so it is carried rather than computed). [getMonth] counts from 0. *)
Record Date := {
  getFullYear : Z;
  getMonth : Z;
  getDate : Z;
  getHours : Z;
  getMinutes : Z;
  getSeconds : Z;
  toISOString : string
}.

(** ** appendTimestampToFilename *)

(** The body of [appendTimestampToFilename] once [new Date()] has produced
    [d]; [extension] is [None] for [null]. *)
Definition appendTimestampToFilename_at
    (d : Date) (filename : string) (extension : option string) : string :=
  let transformedName := JS.replaceUnderscores (JS.toLowerCase (JS.trim filename)) in
  let hr := JS.padStart (JS.toString (getHours d)) 2 "0" in
  let min := JS.padStart (JS.toString (getMinutes d)) 2 "0" in
  let sec := JS.padStart (JS.toString (getSeconds d)) 2 "0" in
  let month := JS.padStart (JS.toString (getMonth d + 1)) 2 "0" in
  let day := JS.padStart (JS.toString (getDate d)) 2 "0" in
  let year := JS.toString (getFullYear d) in
  let stringDate :=
    (month ++ "-" ++ day ++ "-" ++ year ++ "_" ++ hr ++ min ++ sec)%string in
  (transformedName ++ "_" ++ stringDate ++
    match extension with
    | Some e => "." ++ e
    | None => ""
    end)%string.

(** ** sortFiles *)

(** The key the comparator of [sortFiles] extracts from a file name. *)
Definition filePart (file : string) : string :=
  let fileArray := JS.split "_" file in
  JS.join "_" (JS.shift fileArray).

(** The comparator passed to [Array.prototype.sort]. *)
Definition compareFiles (file1 file2 : string) : Z :=
  let file1Part := filePart file1 in
  let file2Part := filePart file2 in
  if file1Part =? file2Part then 0%Z
  else if String.ltb file1Part file2Part then (-1)%Z else 1%Z.

(** [Array.prototype.sort(cmp)] is a stable sort: elements the comparator
    calls equal keep their order.  For a consistent comparator every stable
    sort returns the same array, here computed by insertion. *)
Fixpoint sortInsert {A : Type} (cmp : A -> A -> Z) (x : A) (l : list A) : list A :=
  match l with
  | [] => [x]
  | y :: l' => if (cmp x y <=? 0)%Z then x :: l else y :: sortInsert cmp x l'
  end.

Definition arraySort {A : Type} (cmp : A -> A -> Z) (a : list A) : list A :=
  fold_right (sortInsert cmp) [] a.

(** [sortFiles] sorts its argument in place; the embedding returns the
    array after the call. *)
Definition sortFiles (toMigrateFiles : list string) : list string :=
  arraySort compareFiles toMigrateFiles.

(** ** Effects: state, exceptions, output *)

(** A thrown value or a rejection reason. *)
Inductive Error := MkError (message : string).

Definition message (e : Error) : string := let 'MkError m := e in m.

(** How a call ends: it returns (an awaited promise fulfils) or it throws
    (the promise rejects). *)
Inductive result (A : Type) : Type :=
| Done (a : A)
| Throws (e : Error).
Arguments Done {A} a.
Arguments Throws {A} e.

(** A record of the [Migrations] model, from [../models]. *)
Module Models.

Record Migrations := {
  filename : string;
  dateMigrated : string
}.

End Models.
Export Models.

(** What the service prints: [debug] lines and the one [console.log]. *)
Inductive Output :=
| Debug (line : string)
| ConsoleLog (migratedFilenames filteredFiles : list string).

(** What the service does to its collaborators, in order. *)
Inductive Event :=
| EReadDir (dir : string)
| EFind
| ECreate (m : Migrations)
| EExistsSync (path : string)
| EMkdir (dir : string)
| EWriteFile (path content : string)
| EImport (path : string)
| EUpCalled (file : string)
| EUpReturned (file : string)
| EUpThrew (file : string) (e : Error)
| EDownCalled (file : string)
| EDownReturned (file : string)
| EDownThrew (file : string) (e : Error)
| ESpawn (command : string) (args : list string).

(** An event of a child process: it could not be spawned or was killed
    ([error]), or it ended and its streams closed ([close], with the exit
    code, or the signal that ended it). *)
Inductive ProcEvent :=
| ProcError (e : Error)
| ProcClose (code : option Z) (signal : option string).

Record MongoDbBackUpOptions := {
  DATASOURCE_URL : option string;
  DB_BACKUP_DIR : option string;
  ROOT_DIR : option string
}.

(** The fields of the service object the methods read: the two directories
    ([path.join] of the working directory and the folder names), the
    template written into a new migration file, the backup options. *)
Record MigrationService := {
  rawMigrationDir : string;
  builtMigrationDir : string;
  migrationContent : string;
  backUpOptions : MongoDbBackUpOptions
}.

(** Control leaves a loop body by falling through to the next iteration or
    by a [return] of the enclosing function. *)
Inductive Completion := Normal | Return.

Section Service.

(** The database as the migration files see it through the repositories
    they are handed.  The [Migrations] collection is kept apart, as the
    service's own [migrationRepo]: a transform is taken not to write to
    it. *)
Variable Store : Type.

(** The [RepositoryModules] object handed to every transform. *)
Variable RepositoryModules : Type.

(** An exported [up] or [down]: an async function of the repositories; it
    may change the store and may throw (having changed the store or not).
    A transform whose promise never settles is outside the model. *)
Definition Transform : Type :=
  option RepositoryModules -> Store -> result unit * Store.

(** What [import(path)] resolves to: a missing or falsy export is [None]. *)
Record MigrationModule := {
  up : option Transform;
  down : option Transform
}.

(** The world outside the service, as one invocation reads it.  Within one
    call of [migrate] no file-system read follows a file-system write, so
    the answers to reads are those of the file system at the start. *)
Record Env := {
  existsSync : string -> bool;
  readdir : string -> result (list string);
  mkdirSync : string -> result unit;
  writeFile : string -> string -> result unit;
  importModule : string -> result MigrationModule;
  (** [clock n] is what the [n]-th [new Date()] of the call yields *)
  clock : nat -> Date;
  (** [path.resolve('.')] and [path.join] *)
  cwd : string;
  pathJoin : string -> string -> string;
  (** the events the spawned process emits, the first one apart: a process
      that is started emits [error] or [close] *)
  spawn : string -> list string -> ProcEvent * list ProcEvent
}.

Record State := {
  store : Store;
  ledger : list Migrations;
  ticks : nat;
  output : list Output;
  trace : list Event
}.

Definition M (A : Type) : Type := State -> result A * State.

Definition ret {A} (a : A) : M A := fun s => (Done a, s).

Definition throw {A} (e : Error) : M A := fun s => (Throws e, s).

Definition bind {A B} (c : M A) (k : A -> M B) : M B :=
  fun s =>
    match c s with
    | (Done a, s') => k a s'
    | (Throws e, s') => (Throws e, s')
    end.

Notation "x <- c ;; k" := (bind c (fun x => k))
  (at level 61, c at next level, right associativity).
Notation "c ;; k" := (bind c (fun _ => k))
  (at level 61, right associativity).

Definition liftResult {A} (r : result A) : M A := fun s => (r, s).

Definition emit (e : Event) : M unit :=
  fun s => (Done tt,
            {| store := store s; ledger := ledger s; ticks := ticks s;
               output := output s; trace := trace s ++ [e] |}).

Definition print (o : Output) : M unit :=
  fun s => (Done tt,
            {| store := store s; ledger := ledger s; ticks := ticks s;
               output := output s ++ [o]; trace := trace s |}).

(** [debug(line)]; the logger is enabled at load time. *)
Definition debug (line : string) : M unit := print (Debug line).

Variable env : Env.
Variable this : MigrationService.

(** [new Date()] *)
Definition newDate : M Date :=
  fun s => (Done (clock env (ticks s)),
            {| store := store s; ledger := ledger s; ticks := S (ticks s);
               output := output s; trace := trace s |}).

(** [this.readDir(dir)] *)
Definition readDir (dir : string) : M (list string) :=
  emit (EReadDir dir) ;; liftResult (readdir env dir).

(** Modelled from the spec: [MigrationRepository.find], which is not among
    the sources: it lists the entries of the ledger. *)
Definition migrationRepo_find : M (list Migrations) :=
  emit EFind ;; fun s => (Done (ledger s), s).

(** Modelled from the spec: [MigrationRepository.create], which is not among
    the sources: it appends the entry to the ledger. *)
Definition migrationRepo_create (m : Migrations) : M unit :=
  emit (ECreate m) ;;
  fun s => (Done tt,
            {| store := store s; ledger := ledger s ++ [m]; ticks := ticks s;
               output := output s; trace := trace s |}).

(** [await import(path)] *)
Definition import (path : string) : M MigrationModule :=
  emit (EImport path) ;; liftResult (importModule env path).

(** [fs.existsSync(path)] *)
Definition fsExistsSync (path : string) : M bool :=
  emit (EExistsSync path) ;; ret (existsSync env path).

(** [await transform(repositories)]: the trace records the call and how it
    ended. *)
Definition invoke (called returned : Event) (threw : Error -> Event)
    (t : Transform) (repositories : option RepositoryModules) : M unit :=
  emit called ;;
  fun s =>
    let '(r, st) := t repositories (store s) in
    (r, {| store := st; ledger := ledger s; ticks := ticks s;
           output := output s;
           trace := trace s ++ [match r with
                                | Done _ => returned
                                | Throws e => threw e
                                end] |}).

(** ** The methods of [MigrationService] *)

(** [appendTimestampToFilename(filename, extension)] *)
Definition appendTimestampToFilename
    (filename : string) (extension : option string) : M string :=
  d <- newDate ;;
  ret (appendTimestampToFilename_at d filename extension).

(** [generateMigrationFile(filename)] *)
Definition generateMigrationFile (filename : string) : M unit :=
  dirExists <- fsExistsSync (rawMigrationDir this) ;;
  (if negb dirExists then
     emit (EMkdir (rawMigrationDir this)) ;;
     liftResult (mkdirSync env (rawMigrationDir this)) ;;
     debug "Generated migrations folder"
   else ret tt) ;;
  let transformedName := JS.replaceUnderscores (JS.toLowerCase (JS.trim filename)) in
  stringDate <- appendTimestampToFilename transformedName (Some "ts") ;;
  let migrationFilename := (rawMigrationDir this ++ "/" ++ stringDate)%string in
  emit (EWriteFile migrationFilename (migrationContent this)) ;;
  liftResult (writeFile env migrationFilename (migrationContent this)) ;;
  debug ("Generated migration file " ++ migrationFilename).

(** The promise of [backupMongoDb] is settled by the first event of the
    process; the handlers of the later events still print. *)
Definition onProcEvent (ev : ProcEvent) : M (result bool) :=
  match ev with
  | ProcError error => debug ("error: " ++ message error) ;; ret (Throws error)
  | ProcClose _code _signal => debug "Finished backup" ;; ret (Done true)
  end.

Fixpoint onLaterProcEvents (evs : list ProcEvent) : M unit :=
  match evs with
  | [] => ret tt
  | ev :: evs' => onProcEvent ev ;; onLaterProcEvents evs'
  end.

(** The path and the shell command of [backupMongoDb], for the backup named
    [name]: the options with their defaults, [path.join], the command
    line. *)
Definition backupPath (name : string) : string :=
  let backupDir :=
    match DB_BACKUP_DIR (backUpOptions this) with
    | Some d => d
    | None => "../backup"
    end in
  let rootDir :=
    match ROOT_DIR (backUpOptions this) with
    | Some d => d
    | None => cwd env
    end in
  pathJoin env rootDir (backupDir ++ "/" ++ name)%string.

Definition backupCommand (name : string) : string :=
  let url :=
    match DATASOURCE_URL (backUpOptions this) with
    | Some u => u
    | None => "mongodb://127.0.0.1:27017/mongodbName?retryWrites=true&w=majority"
    end in
  ("mongodump -o " ++ backupPath name ++ " --uri=" ++ url)%string.

(** [backupMongoDb()] *)
Definition backupMongoDb : M bool :=
  name <- appendTimestampToFilename "db" None ;;
  debug ("Backing up database to: " ++ backupPath name) ;;
  emit (ESpawn "sh" ["-c"; backupCommand name]) ;;
  let '(first, later) := spawn env "sh" ["-c"; backupCommand name] in
  settled <- onProcEvent first ;;
  onLaterProcEvents later ;;
  liftResult settled.

(** The loop of the [down] branch of [executeMigration]. *)
Fixpoint forDown (repositories : option RepositoryModules)
    (filteredFiles : list string) : M Completion :=
  match filteredFiles with
  | [] => ret Normal
  | file :: rest =>
      let fileToExecute :=
        (builtMigrationDir this ++ "/" ++ JS.replaceDotTsAtEnd file)%string in
      debug ("File to execute: " ++ fileToExecute) ;;
      jsExists <- fsExistsSync (fileToExecute ++ ".js") ;;
      if (jsExists : bool) then
        migrationActions <- import fileToExecute ;;
        match down migrationActions with
        | None => debug "migration down function not found" ;; ret Return
        | Some downFn =>
            debug ("Migrating down " ++ file) ;;
            invoke (EDownCalled file) (EDownReturned file) (EDownThrew file)
              downFn repositories ;;
            debug (file ++ " migrated down successfully") ;;
            forDown repositories rest
        end
      else forDown repositories rest
  end.

(** The loop of the last branch of [executeMigration]. *)
Fixpoint forUp (repositories : option RepositoryModules) (isTest : bool)
    (toMigrateFiles : list string) : M Completion :=
  match toMigrateFiles with
  | [] => ret Normal
  | file :: rest =>
      migrationActions <-
        import (builtMigrationDir this ++ "/" ++ JS.replaceDotTsAtEnd file) ;;
      match up migrationActions with
      | None => debug "migration up function not found" ;; ret Return
      | Some upFn =>
          debug ("Migrating up " ++ file) ;;
          invoke (EUpCalled file) (EUpReturned file) (EUpThrew file)
            upFn repositories ;;
          (if negb isTest then
             d <- newDate ;;
             migrationRepo_create
               {| filename := file; dateMigrated := toISOString d |}
           else ret tt) ;;
          debug (file ++ " migrated successfully") ;;
          forUp repositories isTest rest
      end
  end.

(** [files.filter(file => migratedFilenames.indexOf(file) === -1)] *)
Definition notMigrated (migratedFilenames files : list string) : list string :=
  filter (fun file => negb (existsb (String.eqb file) migratedFilenames)) files.

(** [executeMigration(action, repositories, filename, isTest)] *)
Definition executeMigration (action : string)
    (repositories : option RepositoryModules)
    (filename : string) (isTest : bool) : M unit :=
  files <- readDir (rawMigrationDir this) ;;
  migratedFilesFromDb <- migrationRepo_find ;;
  let migratedFilenames := map Models.filename migratedFilesFromDb in
  let toMigrateFiles := notMigrated migratedFilenames files in
  if action =? "backup" then
    backupMongoDb ;; ret tt
  else if action =? "down" then
    if filename =? "" then debug "Filename is missing"
    else
      let filteredFiles :=
        filter (fun file => JS.includes file filename) migratedFilenames in
      match filteredFiles with
      | [] => debug "You're trying to migrate down a file that is not yet migrated"
      | _ =>
          c <- forDown repositories filteredFiles ;;
          match c with
          | Return => ret tt
          | Normal => print (ConsoleLog migratedFilenames filteredFiles)
          end
      end
  else
    (if (List.length toMigrateFiles =? 0)%nat
     then debug "No migrations to execute. Database is up to date"
     else ret tt) ;;
    let toMigrateFiles := sortFiles toMigrateFiles in
    forUp repositories isTest toMigrateFiles ;;
    ret tt.

(** [=== s] on a value that is a string or [null] *)
Definition isString (o : option string) (s : string) : bool :=
  match o with
  | Some x => x =? s
  | None => false
  end.

(** [migrate(args, repositories)]; [args[i]] is [undefined] past the end.
    The test [action === 'up' || action === 'down'] is taken one action at a
    time, [action] being the string it was compared with. *)
Definition migrate (args : list string)
    (repositories : option RepositoryModules) : M unit :=
  let action := if JS.truthy (nth_error args 2) then nth_error args 2 else None in
  let filename := if JS.truthy (nth_error args 3) then nth_error args 3 else None in
  let isTest := isString (nth_error args 3) "test" in
  if isString action "create" then
    match filename with
    | None => throw (MkError "Filename is missing")
    | Some filename => generateMigrationFile filename
    end
  else if isString action "up" then
    executeMigration "up" repositories
      (match filename with Some f => f | None => "" end) isTest
  else if isString action "down" then
    executeMigration "down" repositories
      (match filename with Some f => f | None => "" end) isTest
  else if isString action "backup" then
    executeMigration "backup" repositories "" false
  else
    debug "Command <create> Example: npm run migrate create <migration-name>" ;;
    debug "Command <up> Example: npm run migrate up" ;;
    debug "Command <down> Example: npm run migrate down".

End Service.

Arguments up {Store RepositoryModules} m.
Arguments down {Store RepositoryModules} m.
Arguments existsSync {Store RepositoryModules} e _.
Arguments readdir {Store RepositoryModules} e _.
Arguments mkdirSync {Store RepositoryModules} e _.
Arguments writeFile {Store RepositoryModules} e _ _.
Arguments importModule {Store RepositoryModules} e _.
Arguments clock {Store RepositoryModules} e _.
Arguments cwd {Store RepositoryModules} e.
Arguments pathJoin {Store RepositoryModules} e _ _.
Arguments spawn {Store RepositoryModules} e _ _.
Arguments store {Store} s.
Arguments ledger {Store} s.
Arguments ticks {Store} s.
Arguments output {Store} s.
Arguments trace {Store} s.
Arguments migrate {Store RepositoryModules} env this args repositories _.
Arguments executeMigration {Store RepositoryModules} env this action repositories filename isTest _.
Arguments ret {Store A} a _.
Arguments throw {Store A} e _.
Arguments bind {Store A B} c k _.
Arguments onProcEvent {Store} ev _.
Arguments onLaterProcEvents {Store} evs _.
Arguments backupMongoDb {Store RepositoryModules} env this _.
Arguments backupCommand {Store RepositoryModules} env this name.
Arguments backupPath {Store RepositoryModules} env this name.
Arguments generateMigrationFile {Store RepositoryModules} env this filename _.
Arguments appendTimestampToFilename {Store RepositoryModules} env filename extension _.
Arguments forUp {Store RepositoryModules} env this repositories isTest toMigrateFiles _.
Arguments forDown {Store RepositoryModules} env this repositories filteredFiles _.


(** ** Observations on a run *)

(** The suffix of a file name as the specification words it: what follows
    the first underscore, nothing when there is none. *)
Fixpoint suffixAfterFirstUnderscore (s : string) : string :=
  match s with
  | EmptyString => EmptyString
  | String c r => if Ascii.eqb c "_" then r else suffixAfterFirstUnderscore r
  end.

(** The order [sortFiles] sorts by. *)
Definition partLe (f g : string) : Prop :=
  String.leb (filePart f) (filePart g) = true.

(** The files whose [up] was called, whose [up] returned, whose [up] threw
    (with what it threw), and the same for [down]. *)
Definition upsCalled (tr : list Event) : list string :=
  flat_map (fun e => match e with EUpCalled f => [f] | _ => [] end) tr.

Definition upsReturned (tr : list Event) : list string :=
  flat_map (fun e => match e with EUpReturned f => [f] | _ => [] end) tr.

Definition upsThrew (tr : list Event) : list (string * Error) :=
  flat_map (fun e => match e with EUpThrew f err => [(f, err)] | _ => [] end) tr.

Definition downsCalled (tr : list Event) : list string :=
  flat_map (fun e => match e with EDownCalled f => [f] | _ => [] end) tr.

Definition downsReturned (tr : list Event) : list string :=
  flat_map (fun e => match e with EDownReturned f => [f] | _ => [] end) tr.

Definition downsThrew (tr : list Event) : list (string * Error) :=
  flat_map (fun e => match e with EDownThrew f err => [(f, err)] | _ => [] end) tr.

(** The entries handed to [migrationRepo.create]. *)
Definition created (tr : list Event) : list Migrations :=
  flat_map (fun e => match e with ECreate m => [m] | _ => [] end) tr.

(** The paths probed with [existsSync]. *)
Definition probed (tr : list Event) : list string :=
  flat_map (fun e => match e with EExistsSync p => [p] | _ => [] end) tr.

(** The events, the output and the ledger entries a run from [s] to [s']
    added. *)
Definition since {Store} (s s' : State Store) : list Event :=
  skipn (List.length (trace s)) (trace s').

Definition printed {Store} (s s' : State Store) : list Output :=
  skipn (List.length (output s)) (output s').

Definition appended {Store} (s s' : State Store) : list Migrations :=
  skipn (List.length (ledger s)) (ledger s').

(** [s'] is [s] with these events, lines and ledger entries added. *)
Definition grows {Store} (s s' : State Store)
    (tr : list Event) (out : list Output) (ms : list Migrations) : Prop :=
  trace s' = trace s ++ tr /\ output s' = output s ++ out /\ ledger s' = ledger s ++ ms.

(** The result of the call whose loop ended with [c]. *)
Definition voided (c : result Completion) : result unit :=
  match c with
  | Done _ => Done tt
  | Throws e => Throws e
  end.

(** The module path the [up] and [down] loops import for a file. *)
Definition modulePath (this : MigrationService) (file : string) : string :=
  (builtMigrationDir this ++ "/" ++ JS.replaceDotTsAtEnd file)%string.

(** The compiled migration of [file] can be imported and exports [up]. *)
Definition hasUp {Store Repos} (env : Env Store Repos) (this : MigrationService)
    (file : string) : Prop :=
  exists m t, importModule env (modulePath this file) = Done m /\ up m = Some t.

(** How the [up] loop over [pre ++ rest] ended, [pre] being the files whose
    [up] returned. *)
Inductive UpEnding {Store Repos} (env : Env Store Repos) (this : MigrationService)
    (pre rest : list string) (r : result Completion)
    (tr : list Event) (out : list Output) : Prop :=
| up_completed :
    rest = [] -> r = Done Normal ->
    upsCalled tr = pre -> upsThrew tr = [] ->
    UpEnding env this pre rest r tr out
| up_missing f post m :
    rest = f :: post ->
    importModule env (modulePath this f) = Done m -> up m = None ->
    r = Done Return ->
    upsCalled tr = pre -> upsThrew tr = [] ->
    In (Debug "migration up function not found") out ->
    UpEnding env this pre rest r tr out
| up_import_failed f post e :
    rest = f :: post ->
    importModule env (modulePath this f) = Throws e ->
    r = Throws e ->
    upsCalled tr = pre -> upsThrew tr = [] ->
    UpEnding env this pre rest r tr out
| up_threw f post e :
    rest = f :: post -> hasUp env this f ->
    r = Throws e ->
    upsCalled tr = pre ++ [f] -> upsThrew tr = [(f, e)] ->
    UpEnding env this pre rest r tr out.

(** The compiled file the [down] loop looks for, and whether it is there. *)
Definition jsPath (this : MigrationService) (file : string) : string :=
  (modulePath this file ++ ".js")%string.

Definition compiled {Store Repos} (env : Env Store Repos) (this : MigrationService)
    (file : string) : bool :=
  existsSync env (jsPath this file).

(** How the [down] loop over [pre ++ rest] ended, [pre] being the files it
    is done with: reverted, or skipped for want of a compiled file. *)
Inductive DownEnding {Store Repos} (env : Env Store Repos) (this : MigrationService)
    (pre rest : list string) (r : result Completion)
    (tr : list Event) (out : list Output) : Prop :=
| down_completed :
    rest = [] -> r = Done Normal ->
    probed tr = map (jsPath this) pre ->
    downsCalled tr = filter (compiled env this) pre -> downsThrew tr = [] ->
    DownEnding env this pre rest r tr out
| down_missing f post m :
    rest = f :: post -> compiled env this f = true ->
    importModule env (modulePath this f) = Done m -> down m = None ->
    r = Done Return ->
    probed tr = map (jsPath this) (pre ++ [f]) ->
    downsCalled tr = filter (compiled env this) pre -> downsThrew tr = [] ->
    In (Debug "migration down function not found") out ->
    DownEnding env this pre rest r tr out
| down_import_failed f post e :
    rest = f :: post -> compiled env this f = true ->
    importModule env (modulePath this f) = Throws e ->
    r = Throws e ->
    probed tr = map (jsPath this) (pre ++ [f]) ->
    downsCalled tr = filter (compiled env this) pre -> downsThrew tr = [] ->
    DownEnding env this pre rest r tr out
| down_threw f post e :
    rest = f :: post -> compiled env this f = true ->
    r = Throws e ->
    probed tr = map (jsPath this) (pre ++ [f]) ->
    downsCalled tr = filter (compiled env this) pre ++ [f] ->
    downsThrew tr = [(f, e)] ->
    DownEnding env this pre rest r tr out.

(** The token [migrate] hands to [executeMigration]: [args[3]], or the
    empty string when it is missing. *)
Definition tokenOf (args : list string) : string :=
  match nth_error args 3 with
  | Some f => f
  | None => ""
  end.

(** ** A concrete world, for the examples *)

Module Example.

(** The store is the list of the notes the transforms left. *)
Definition St : Type := list string.

Definition note (x : string) : Transform St unit :=
  fun _ st => (Done tt, st ++ [x]).

Definition boom (x : string) : Transform St unit :=
  fun _ st => (Throws (MkError x), st ++ [x]).

(** Three compiled migrations: [a] has both transforms, the [up] of [b]
    throws and it has no [down], [c] has no [up]. *)
Definition modules (p : string) : result (MigrationModule St unit) :=
  if p =? "/app/dist/migrations/a_01-01-2024_000001" then
    Done {| up := Some (note "a up"); down := Some (note "a down") |}
  else if p =? "/app/dist/migrations/b_01-01-2024_000002" then
    Done {| up := Some (boom "b up"); down := None |}
  else if p =? "/app/dist/migrations/c_01-01-2024_000003" then
    Done {| up := None; down := Some (note "c down") |}
  else Throws (MkError "Cannot find module").

Definition date_2024_05_07 : Date :=
  {| getFullYear := 2024; getMonth := 4; getDate := 7;
     getHours := 3; getMinutes := 4; getSeconds := 5;
     toISOString := "2024-05-07T03:04:05.000Z" |}.

Definition world (files : list string) (ev : ProcEvent * list ProcEvent) : Env St unit :=
  {| existsSync := fun p => String.prefix "/app/dist" p;
     readdir := fun d =>
       if d =? "/app/src/migrations" then Done files
       else Throws (MkError "ENOENT");
     mkdirSync := fun _ => Done tt;
     writeFile := fun _ _ => Done tt;
     importModule := modules;
     clock := fun _ => date_2024_05_07;
     cwd := "/app";
     pathJoin := fun a b => (a ++ "/" ++ b)%string;
     spawn := fun _ _ => ev |}.

Definition service : MigrationService :=
  {| rawMigrationDir := "/app/src/migrations";
     builtMigrationDir := "/app/dist/migrations";
     migrationContent := "// Put your imports here";
     backUpOptions :=
       {| DATASOURCE_URL := None; DB_BACKUP_DIR := None; ROOT_DIR := None |} |}.

Definition start (l : list Migrations) : State St :=
  {| store := []; ledger := l; ticks := 0; output := []; trace := [] |}.

Definition fileA : string := "a_01-01-2024_000001.ts".
Definition fileB : string := "b_01-01-2024_000002.ts".
Definition fileC : string := "c_01-01-2024_000003.ts".

Definition applied (f : string) : Migrations :=
  {| filename := f; dateMigrated := "2024-01-01T00:00:00.000Z" |}.

(** A dump that ends with exit code 1, and one that ends with code 0. *)
Definition dumpFailed : ProcEvent * list ProcEvent := (ProcClose (Some 1%Z) None, []).
Definition dumpDone : ProcEvent * list ProcEvent := (ProcClose (Some 0%Z) None, []).

(** The three migrations listed, in the order [c], [a], [b]. *)
Definition allListed : Env St unit := world [fileC; fileA; fileB] dumpDone.

(** Only [a] and [c] listed. *)
Definition twoListed : Env St unit := world [fileC; fileA] dumpDone.

End Example.

(** ** getRepositories *)

(** A JavaScript object used as a map from names: its own properties, in
    the order they were first assigned. *)
Definition JSObject (V : Type) : Type := list (string * V).

(** [o[key]], [None] for [undefined]. *)
Fixpoint objGet {V : Type} (o : JSObject V) (key : string) : option V :=
  match o with
  | [] => None
  | (k, x) :: rest => if k =? key then Some x else objGet rest key
  end.

(** [o[key] = v]: an existing property keeps its place, a new one goes
    last. *)
Fixpoint objSet {V : Type} (o : JSObject V) (key : string) (v : V) : JSObject V :=
  match o with
  | [] => [(key, v)]
  | (k, x) :: rest =>
      if k =? key then (k, v) :: rest else (k, x) :: objSet rest key v
  end.

Section GetRepositories.

(** The repository classes and the repositories the application resolves
    them to. *)
Variables Class Handle : Type.

(** [app.getRepository(value)]: the repository bound to a class, or a
    rejection. *)
Variable app_getRepository : Class -> result Handle.

(** The loop of [getRepositories] over [Object.entries(allRepositories)],
    from the object built so far; beside the result, the classes the
    application was asked for, in order. *)
Fixpoint getRepositories_from (repos : list (string * Class))
    (repositories : JSObject Handle) (requested : list Class)
    : result (JSObject Handle) * list Class :=
  match repos with
  | [] => (Done repositories, requested)
  | (key, value) :: rest =>
      match app_getRepository value with
      | Done handle =>
          getRepositories_from rest (objSet repositories key handle)
            (requested ++ [value])
      | Throws e => (Throws e, requested ++ [value])
      end
  end.

(** The property the loop adds for an entry whose class resolves. *)
Definition resolvedEntry (kc : string * Class) : list (string * Handle) :=
  match app_getRepository (snd kc) with
  | Done h => [(fst kc, h)]
  | Throws _ => []
  end.

(** [getRepositories(app, allRepositories)], [allRepositories] given by its
    entries. *)
Definition getRepositories (allRepositories : list (string * Class))
    : result (JSObject Handle) * list Class :=
  getRepositories_from allRepositories [] [].

End GetRepositories.

Arguments getRepositories_from {Class Handle} app_getRepository repos repositories requested.
Arguments getRepositories {Class Handle} app_getRepository allRepositories.
Arguments resolvedEntry {Class Handle} app_getRepository kc.

(** ** More observations *)

(** The last code unit of a string, [None] for the empty string. *)
Fixpoint lastCodeUnit (s : string) : option ascii :=
  match s with
  | EmptyString => None
  | String c r =>
      match lastCodeUnit r with
      | Some d => Some d
      | None => Some c
      end
  end.

(** The expression [filename.trim().toLowerCase().replace(/_/g, '-')] of
    [generateMigrationFile] and [appendTimestampToFilename]. *)
Definition normalize (s : string) : string :=
  JS.replaceUnderscores (JS.toLowerCase (JS.trim s)).

(** What [normalize] does to one code unit. *)
Definition normChar (c : ascii) : ascii :=
  let l := JS.lowerChar c in if Ascii.eqb l "_" then "-"%char else l.

(** The [stringDate] of [appendTimestampToFilename] for the date [d]. *)
Definition stringDateOf (d : Date) : string :=
  let hr := JS.padStart (JS.toString (getHours d)) 2 "0" in
  let min := JS.padStart (JS.toString (getMinutes d)) 2 "0" in
  let sec := JS.padStart (JS.toString (getSeconds d)) 2 "0" in
  let month := JS.padStart (JS.toString (getMonth d + 1)) 2 "0" in
  let day := JS.padStart (JS.toString (getDate d)) 2 "0" in
  let year := JS.toString (getFullYear d) in
  (month ++ "-" ++ day ++ "-" ++ year ++ "_" ++ hr ++ min ++ sec)%string.

(** The extension as it ends the file name. *)
Definition extensionSuffix (extension : option string) : string :=
  match extension with
  | Some e => ("." ++ e)%string
  | None => ""
  end.

(** An entry handed to [migrationRepo.create]. *)
Definition isCreate (e : Event) : bool :=
  match e with
  | ECreate _ => true
  | _ => false
  end.

(** The store after the [up] of [file] ran on [st]; [st] itself when the
    module cannot be imported or exports no [up]. *)
Definition applyUp {Store Repos} (env : Env Store Repos) (this : MigrationService)
    (repos : option Repos) (st : Store) (file : string) : Store :=
  match importModule env (modulePath this file) with
  | Done m =>
      match up m with
      | Some t => snd (t repos st)
      | None => st
      end
  | Throws _ => st
  end.

(** The ledger entries of [files] dated by the clock readings from the
    [n]-th on, one reading for each file. *)
Fixpoint entriesFrom {Store Repos} (env : Env Store Repos) (n : nat)
    (files : list string) : list Migrations :=
  match files with
  | [] => []
  | f :: rest =>
      {| filename := f; dateMigrated := toISOString (clock env n) |}
      :: entriesFrom env (S n) rest
  end.

(** The events an action may cause. *)
Definition allowedFor (action : option string) (e : Event) : bool :=
  let create := isString action "create" in
  let forward := isString action "up" in
  let reverse := isString action "down" in
  let backup := isString action "backup" in
  match e with
  | EReadDir _ | EFind => forward || reverse || backup
  | ECreate _ | EUpCalled _ | EUpReturned _ | EUpThrew _ _ => forward
  | EImport _ => forward || reverse
  | EExistsSync _ => create || reverse
  | EMkdir _ | EWriteFile _ _ => create
  | EDownCalled _ | EDownReturned _ | EDownThrew _ _ => reverse
  | ESpawn _ _ => backup
  end.

(** A computation adds to the trace only events that satisfy [P]. *)
Definition emitsOnly {Store A} (P : Event -> bool)
    (c : State Store -> result A * State Store) : Prop :=
  forall s, exists tr, trace (snd (c s)) = trace s ++ tr /\ forallb P tr = true.

(** The world [env] with the migrations directory listing [files]. *)
Definition withListing {Store Repos} (env : Env Store Repos) (files : list string)
    : Env Store Repos :=
  {| existsSync := existsSync env;
     readdir := fun _ => Done files;
     mkdirSync := mkdirSync env;
     writeFile := writeFile env;
     importModule := importModule env;
     clock := clock env;
     cwd := cwd env;
     pathJoin := pathJoin env;
     spawn := spawn env |}.

(** The compiled migration of [file] is there, can be imported and exports
    [down]. *)
Definition hasDown {Store Repos} (env : Env Store Repos) (this : MigrationService)
    (file : string) : Prop :=
  compiled env this file = true /\
  exists m t, importModule env (modulePath this file) = Done m /\ down m = Some t.

(** ** More of the example world *)

Module MoreExamples.

(** A migration whose [down] throws, and a file that is listed but was
    never compiled. *)
Definition fileD : string := "d_02-01-2024_000004.ts".
Definition fileE : string := "e_03-01-2024_000005.ts".

Definition modules (p : string) : result (MigrationModule Example.St unit) :=
  if p =? "/app/dist/migrations/d_02-01-2024_000004" then
    Done {| up := Some (Example.note "d up"); down := Some (Example.boom "d down") |}
  else Example.modules p.

Definition world (files : list string) : Env Example.St unit :=
  {| existsSync := fun p => String.prefix "/app/dist" p;
     readdir := fun d =>
       if d =? "/app/src/migrations" then Done files
       else Throws (MkError "ENOENT");
     mkdirSync := fun _ => Done tt;
     writeFile := fun _ _ => Done tt;
     importModule := modules;
     clock := fun _ => Example.date_2024_05_07;
     cwd := "/app";
     pathJoin := fun a b => (a ++ "/" ++ b)%string;
     spawn := fun _ _ => Example.dumpDone |}.

Definition january_2024 : Date :=
  {| getFullYear := 2024; getMonth := 0; getDate := 15;
     getHours := 9; getMinutes := 30; getSeconds := 0;
     toISOString := "2024-01-15T09:30:00.000Z" |}.

Definition december_2023 : Date :=
  {| getFullYear := 2023; getMonth := 11; getDate := 15;
     getHours := 9; getMinutes := 30; getSeconds := 0;
     toISOString := "2023-12-15T09:30:00.000Z" |}.

Definition january_2024_later : Date :=
  {| getFullYear := 2024; getMonth := 0; getDate := 15;
     getHours := 9; getMinutes := 31; getSeconds := 0;
     toISOString := "2024-01-15T09:31:00.000Z" |}.

(** An application that resolves every repository class but [Broken]. *)
Definition app_getRepository (c : string) : result string :=
  if c =? "Broken" then Throws (MkError "The key is not bound")
  else Done ("repository of " ++ c)%string.

End MoreExamples.

(** ** Strings and sorting *)


Lemma split_nonempty sep s : JS.split sep s <> [].
Proof.
  destruct s as [|c r]; simpl; [discriminate|].
  destruct (Ascii.eqb c sep); [discriminate|].
  destruct (JS.split sep r); discriminate.
Qed.

Lemma join_cons sep x seg segs :
  JS.join sep (x :: seg :: segs) = (x ++ sep ++ JS.join sep (seg :: segs))%string.
Proof. reflexivity. Qed.

Lemma join_split c s : JS.join (String c EmptyString) (JS.split c s) = s.
Proof.
  induction s as [|a r IH]; simpl; [reflexivity|].
  destruct (Ascii.eqb_spec a c) as [->|Hne].
  - destruct (JS.split c r) as [|seg segs] eqn:E.
    + now apply split_nonempty in E.
    + rewrite join_cons, IH. reflexivity.
  - destruct (JS.split c r) as [|seg segs] eqn:E.
    + now apply split_nonempty in E.
    + destruct segs as [|seg' segs'].
      * simpl in *. now rewrite IH.
      * rewrite join_cons in IH. rewrite join_cons.
        change (String a seg ++ String c "" ++ JS.join (String c "") (seg' :: segs'))%string
          with (String a (seg ++ String c "" ++ JS.join (String c "") (seg' :: segs'))%string).
        now rewrite IH.
Qed.

Lemma filePart_suffix file : filePart file = suffixAfterFirstUnderscore file.
Proof.
  unfold filePart, JS.shift.
  induction file as [|a r IH]; simpl; [reflexivity|].
  destruct (Ascii.eqb a "_") eqn:E.
  - simpl. apply (join_split "_" r).
  - destruct (JS.split "_" r) as [|seg segs] eqn:Er.
    + now apply split_nonempty in Er.
    + exact IH.
Qed.

Lemma ascii_compare_refl a : Ascii.compare a a = Eq.
Proof. unfold Ascii.compare. apply N.compare_refl. Qed.

Lemma string_compare_refl s : String.compare s s = Eq.
Proof. induction s as [|a r IH]; simpl; [reflexivity|]. now rewrite ascii_compare_refl. Qed.

Lemma string_compare_eq s t : String.compare s t = Eq <-> s = t.
Proof.
  split; [apply String.compare_eq_iff|].
  intros ->. apply string_compare_refl.
Qed.

Lemma string_leb_trans s t u :
  String.leb s t = true -> String.leb t u = true -> String.leb s u = true.
Proof.
  unfold String.leb. revert t u.
  induction s as [|a s IH]; intros [|b t] [|c u]; simpl; try congruence.
  unfold Ascii.compare.
  destruct (N.compare_spec (N_of_ascii a) (N_of_ascii b)) as [Hab|Hab|Hab];
    destruct (N.compare_spec (N_of_ascii b) (N_of_ascii c)) as [Hbc|Hbc|Hbc];
    destruct (N.compare_spec (N_of_ascii a) (N_of_ascii c)) as [Hac|Hac|Hac];
    try congruence; try lia.
  apply IH.
Qed.

Lemma compareFiles_le f g : (compareFiles f g <=? 0)%Z = true <-> partLe f g.
Proof.
  unfold compareFiles, partLe, String.ltb, String.leb.
  destruct (String.eqb_spec (filePart f) (filePart g)) as [->|Hne].
  - rewrite string_compare_refl. simpl. tauto.
  - destruct (String.compare (filePart f) (filePart g)) eqn:E; simpl; try tauto.
    apply string_compare_eq in E. contradiction.
Qed.

Lemma compareFiles_gt f g : (compareFiles f g <=? 0)%Z = false -> partLe g f.
Proof.
  intros H. destruct (String.leb_total (filePart g) (filePart f)) as [Hl|Hl]; [exact Hl|].
  apply compareFiles_le in Hl. congruence.
Qed.

Lemma sortInsert_perm {A} (cmp : A -> A -> Z) x l :
  Permutation (x :: l) (sortInsert cmp x l).
Proof.
  induction l as [|y l IH]; simpl; [reflexivity|].
  destruct (cmp x y <=? 0)%Z; [reflexivity|].
  rewrite perm_swap. now constructor.
Qed.

Lemma arraySort_perm {A} (cmp : A -> A -> Z) l : Permutation l (arraySort cmp l).
Proof.
  induction l as [|x l IH]; simpl; [constructor|].
  rewrite <- sortInsert_perm. now constructor.
Qed.

Lemma sortInsert_sorted x l :
  StronglySorted partLe l -> StronglySorted partLe (sortInsert compareFiles x l).
Proof.
  induction 1 as [|y l Hs IH Hall]; simpl.
  - repeat constructor.
  - destruct (compareFiles x y <=? 0)%Z eqn:E.
    + apply compareFiles_le in E.
      constructor; [now constructor|].
      constructor; [exact E|].
      eapply Forall_impl; [|exact Hall].
      intros z Hz. unfold partLe in *. eapply string_leb_trans; eauto.
    + apply compareFiles_gt in E.
      constructor; [exact IH|].
      eapply Permutation_Forall; [apply sortInsert_perm|].
      now constructor.
Qed.

Lemma sortFiles_sorted l : StronglySorted partLe (sortFiles l).
Proof.
  unfold sortFiles, arraySort.
  induction l as [|x l IH]; simpl; [constructor|].
  now apply sortInsert_sorted.
Qed.

Lemma sortFiles_perm l : Permutation l (sortFiles l).
Proof. apply arraySort_perm. Qed.

(** Files with the same key stay in the order of the listing. *)
Lemma sortFiles_stable k l :
  filter (fun f => filePart f =? k) (sortFiles l) = filter (fun f => filePart f =? k) l.
Proof.
  unfold sortFiles, arraySort.
  induction l as [|x l IH]; simpl; [reflexivity|].
  rewrite <- IH. clear IH.
  generalize (fold_right (sortInsert compareFiles) [] l) as m.
  induction m as [|y m IHm]; simpl; [reflexivity|].
  destruct (compareFiles x y <=? 0)%Z eqn:E; [reflexivity|].
  simpl. rewrite IHm.
  destruct (String.eqb_spec (filePart x) k) as [Hx|Hx];
    destruct (String.eqb_spec (filePart y) k) as [Hy|Hy]; try reflexivity.
  exfalso. unfold compareFiles in E.
  rewrite Hx, Hy, String.eqb_refl in E. discriminate.
Qed.

(** ** Runs: what a call adds to the trace, the output and the ledger *)

#[local] Arguments String.append : simpl never.

Ltac run_step :=
  unfold appendTimestampToFilename, readDir, migrationRepo_find,
    migrationRepo_create, import, invoke, fsExistsSync, debug in *;
  unfold bind, emit, print, liftResult, ret, throw, newDate in *;
  simpl in *.

Ltac grows_now :=
  unfold grows; simpl; rewrite ?app_nil_r, <- ?app_assoc; simpl;
  repeat split; reflexivity.

Section Runs.

Context {Store Repos : Type}.
Variable env : Env Store Repos.
Variable this : MigrationService.

Lemma grows_since (s s' : State Store) tr out ms :
  grows s s' tr out ms ->
  since s s' = tr /\ printed s s' = out /\ appended s s' = ms.
Proof.
  intros (Ht & Ho & Hl). unfold since, printed, appended.
  rewrite Ht, Ho, Hl, !skipn_app, !skipn_all, !Nat.sub_diag. auto.
Qed.

Lemma upsCalled_app a b : upsCalled (a ++ b) = upsCalled a ++ upsCalled b.
Proof. apply flat_map_app. Qed.

Lemma upsThrew_app a b : upsThrew (a ++ b) = upsThrew a ++ upsThrew b.
Proof. apply flat_map_app. Qed.

Lemma UpEnding_app p0 pre rest r tr0 out0 tr out :
  upsCalled tr0 = p0 -> upsThrew tr0 = [] ->
  UpEnding env this pre rest r tr out ->
  UpEnding env this (p0 ++ pre) rest r (tr0 ++ tr) (out0 ++ out).
Proof.
  intros Hc Ht He.
  assert (Hcalled' : forall q, upsCalled tr = q -> upsCalled (tr0 ++ tr) = p0 ++ q)
    by (intros q <-; now rewrite upsCalled_app, Hc).
  assert (Hthrew' : forall q, upsThrew tr = q -> upsThrew (tr0 ++ tr) = q)
    by (intros q <-; now rewrite upsThrew_app, Ht).
  destruct He as [Hrest Hr Hcalled Hthrew
                 |g post m Hrest Himp Hup Hr Hcalled Hthrew Hout
                 |g post e Hrest Himp Hr Hcalled Hthrew
                 |g post e Hrest Hhas Hr Hcalled Hthrew].
  - apply up_completed; auto.
  - eapply up_missing; eauto. apply in_or_app; now right.
  - eapply up_import_failed; eauto.
  - eapply up_threw; eauto. rewrite <- app_assoc. auto.
Qed.

Lemma UpEnding_cons f pre rest r tr0 out0 tr out :
  upsCalled tr0 = [f] -> upsThrew tr0 = [] ->
  UpEnding env this pre rest r tr out ->
  UpEnding env this (f :: pre) rest r (tr0 ++ tr) (out0 ++ out).
Proof. intros. now apply (UpEnding_app [f]). Qed.

Ltac grows_from Hg :=
  let Ht := fresh "Ht" in
  let Ho := fresh "Ho" in
  let Hl := fresh "Hl" in
  destruct Hg as (Ht & Ho & Hl); simpl in Ht, Ho, Hl;
  unfold grows; rewrite Ht, Ho, Hl, <- ?app_assoc; simpl;
  repeat split; reflexivity.

Lemma forUp_spec (repos : option Repos) (isTest : bool) (l : list string) :
  forall s r s', forUp env this repos isTest l s = (r, s') ->
  exists pre rest tr out ms,
    l = pre ++ rest /\
    grows s s' tr out ms /\
    created tr = ms /\
    map filename ms = (if isTest then [] else pre) /\
    upsReturned tr = pre /\
    Forall (hasUp env this) pre /\
    UpEnding env this pre rest r tr out.
Proof.
  induction l as [|f l IH]; intros s r s' H.
  - simpl in H. inversion H; subst.
    exists [], [], [], [], []. split; [reflexivity|]. split; [grows_now|].
    repeat split; try (destruct isTest; reflexivity); try apply Forall_nil.
    now apply up_completed.
  - simpl in H. run_step.
    destruct (importModule env _) as [m|e] eqn:Eimp.
    + destruct (up m) as [t|] eqn:Eup; simpl in H.
      * destruct (t repos (store s)) as [[[]|e] st] eqn:Et; simpl in H.
        -- assert (Hhas : hasUp env this f) by (exists m, t; auto).
           destruct isTest; simpl in H;
             apply IH in H;
             destruct H as (pre & rest & tr & out & ms & -> & Hg & Hc & Hm & Hr & Hf & He).
           ++ exists (f :: pre), rest,
                ([EImport (modulePath this f); EUpCalled f; EUpReturned f] ++ tr),
                ([Debug ("Migrating up " ++ f); Debug (f ++ " migrated successfully")] ++ out),
                ms.
              split; [reflexivity|]. split; [grows_from Hg|].
              split; [exact Hc|]. split; [exact Hm|].
              split; [simpl; now rewrite Hr|].
              split; [now constructor|].
              now apply UpEnding_cons.
           ++ exists (f :: pre), rest,
                ([EImport (modulePath this f); EUpCalled f; EUpReturned f;
                  ECreate {| filename := f;
                             dateMigrated := toISOString (clock env (ticks s)) |}] ++ tr),
                ([Debug ("Migrating up " ++ f); Debug (f ++ " migrated successfully")] ++ out),
                ({| filename := f;
                    dateMigrated := toISOString (clock env (ticks s)) |} :: ms).
              split; [reflexivity|]. split; [grows_from Hg|].
              split; [simpl; now rewrite Hc|]. split; [simpl; now rewrite Hm|].
              split; [simpl; now rewrite Hr|].
              split; [now constructor|].
              now apply UpEnding_cons.
        -- inversion H; subst; clear H.
           exists [], (f :: l),
             [EImport (modulePath this f); EUpCalled f; EUpThrew f e],
             [Debug ("Migrating up " ++ f)], [].
           split; [reflexivity|]. split; [grows_now|].
           repeat split; try (destruct isTest; reflexivity); try apply Forall_nil.
           eapply up_threw; eauto. exists m, t; auto.
      * inversion H; subst; clear H.
        exists [], (f :: l), [EImport (modulePath this f)],
          [Debug "migration up function not found"], [].
        split; [reflexivity|]. split; [grows_now|].
        repeat split; try (destruct isTest; reflexivity); try apply Forall_nil.
        eapply up_missing; eauto. now left.
    + inversion H; subst; clear H.
      exists [], (f :: l), [EImport (modulePath this f)], [], [].
      split; [reflexivity|]. split; [grows_now|].
      repeat split; try (destruct isTest; reflexivity); try apply Forall_nil.
      eapply up_import_failed; eauto.
Qed.

(** A forward run, once the directory is listed. *)
Lemma executeMigration_up_spec repos token isTest files s r s' :
  readdir env (rawMigrationDir this) = Done files ->
  executeMigration env this "up" repos token isTest s = (r, s') ->
  exists pre rest c,
    sortFiles (notMigrated (map filename (ledger s)) files) = pre ++ rest /\
    ledger s' = ledger s ++ created (since s s') /\
    map filename (created (since s s')) = (if isTest then [] else pre) /\
    upsReturned (since s s') = pre /\
    Forall (hasUp env this) pre /\
    UpEnding env this pre rest c (since s s') (printed s s') /\
    r = voided c.
Proof.
  intros Hdir H. unfold executeMigration in H. run_step.
  rewrite Hdir in H. simpl in H.
  set (pending := notMigrated (map filename (ledger s)) files) in *.
  match type of H with
  | context [if ?b then _ else _] => destruct b
  end; simpl in H;
    match type of H with
    | context [forUp env this repos isTest ?l ?s0] =>
        destruct (forUp env this repos isTest l s0) as [c s1] eqn:E
    end;
    apply forUp_spec in E;
    destruct E as (pre & rest & tr & out & ms & Hl & Hg & Hc & Hm & Hr & Hf & He);
    assert (r = voided c /\ s' = s1) as [-> ->]
      by (destruct c; inversion H; auto);
    exists pre, rest, c.
  - assert (Hg' : grows s s1 ([EReadDir (rawMigrationDir this); EFind] ++ tr)
                    ([Debug "No migrations to execute. Database is up to date"] ++ out) ms)
      by grows_from Hg.
    destruct (grows_since _ _ _ _ _ Hg') as (-> & -> & _).
    destruct Hg' as (_ & _ & ->).
    repeat split; auto; try (now apply (UpEnding_app [])); simpl; congruence.
  - assert (Hg' : grows s s1 ([EReadDir (rawMigrationDir this); EFind] ++ tr) ([] ++ out) ms)
      by grows_from Hg.
    destruct (grows_since _ _ _ _ _ Hg') as (-> & -> & _).
    destruct Hg' as (_ & _ & ->).
    repeat split; auto; try (now apply (UpEnding_app [])); simpl; congruence.
Qed.

Lemma notMigrated_In migrated files f :
  In f (notMigrated migrated files) <-> In f files /\ ~ In f migrated.
Proof.
  unfold notMigrated. rewrite filter_In.
  assert (Hex : existsb (String.eqb f) migrated = true <-> In f migrated).
  { rewrite existsb_exists. split.
    - intros (x & Hx & Heq). apply String.eqb_eq in Heq. now subst.
    - intros Hin. exists f. split; [exact Hin|apply String.eqb_refl]. }
  destruct (existsb (String.eqb f) migrated); simpl; split.
  - intros [_ Hd]. discriminate.
  - intros [_ Hn]. exfalso. apply Hn, Hex. reflexivity.
  - intros [Hin _]. split; [exact Hin|]. intros Hm. apply Hex in Hm. discriminate.
  - intros [Hin _]. auto.
Qed.

Lemma notMigrated_nil migrated files :
  incl files migrated -> notMigrated migrated files = [].
Proof.
  intros Hincl.
  destruct (notMigrated migrated files) as [|f l] eqn:E; [reflexivity|].
  assert (Hin : In f (notMigrated migrated files)) by (rewrite E; now left).
  apply notMigrated_In in Hin. destruct Hin as [Hf Hn].
  exfalso. apply Hn, Hincl, Hf.
Qed.

(** Listing the directory comes first: when it fails, nothing else
    happens. *)
Lemma executeMigration_readdir_throws action repos token isTest s e :
  readdir env (rawMigrationDir this) = Throws e ->
  executeMigration env this action repos token isTest s =
    (Throws e,
     {| store := store s; ledger := ledger s; ticks := ticks s;
        output := output s;
        trace := trace s ++ [EReadDir (rawMigrationDir this)] |}).
Proof.
  intros Hdir. unfold executeMigration. run_step. now rewrite Hdir.
Qed.

Ltac since_now :=
  unfold since, printed, appended; simpl;
  rewrite <- ?app_assoc, ?skipn_app, ?skipn_all, ?Nat.sub_diag; simpl.

Lemma lastCodeUnit_app (f t : string) :
  t <> EmptyString -> lastCodeUnit (f ++ t) = lastCodeUnit t.
Proof.
  intros Ht.
  assert (Hsome : exists d, lastCodeUnit t = Some d).
  { destruct t as [|c r]; [contradiction|]. simpl.
    destruct (lastCodeUnit r); eauto. }
  destruct Hsome as (d & Hd).
  induction f as [|a f IH]; [reflexivity|].
  change (String a f ++ t)%string with (String a (f ++ t)).
  simpl. now rewrite IH, Hd.
Qed.

Lemma not_the_up_to_date_line f :
  Debug ("Migrating up " ++ f) <> Debug "No migrations to execute. Database is up to date" /\
  Debug (f ++ " migrated successfully")
    <> Debug "No migrations to execute. Database is up to date".
Proof.
  split; intros H.
  - change ("Migrating up " ++ f)%string with (String "M" ("igrating up " ++ f)) in H.
    discriminate.
  - injection H as H. apply (f_equal lastCodeUnit) in H.
    rewrite lastCodeUnit_app in H by discriminate. discriminate.
Qed.

(** The loop of a forward run never prints the up-to-date line. *)
Lemma forUp_output repos isTest l :
  forall s : State Store,
  exists out,
    output (snd (forUp env this repos isTest l s)) = output s ++ out /\
    ~ In (Debug "No migrations to execute. Database is up to date") out.
Proof.
  induction l as [|f l IH]; intros s.
  - exists []. simpl. rewrite app_nil_r. auto.
  - simpl. run_step.
    destruct (not_the_up_to_date_line f) as [Hm Hs].
    destruct (importModule env _) as [m|e] eqn:Eimp; simpl.
    + destruct (up m) as [t|] eqn:Eup; simpl.
      * destruct (t repos (store s)) as [[[]|e] st] eqn:Et; simpl.
        -- destruct isTest; simpl;
             match goal with
             | |- context [forUp env this repos _ l ?a] =>
                 destruct (IH a) as (out & Ho & Hn)
             end; simpl in Ho;
             exists ([Debug ("Migrating up " ++ f);
                      Debug (f ++ " migrated successfully")] ++ out);
             (split; [rewrite Ho, <- !app_assoc; reflexivity|]);
             intros [H|[H|H]]; auto.
        -- exists [Debug ("Migrating up " ++ f)]. split; [reflexivity|].
           intros [H|[]]. auto.
      * exists [Debug "migration up function not found"]. split; [reflexivity|].
        intros [H|[]]. discriminate.
    + exists []. rewrite app_nil_r. auto.
Qed.

(** What a forward run prints: the up-to-date line when nothing is pending,
    then the lines of its loop. *)
Lemma executeMigration_up_output repos token isTest files s :
  readdir env (rawMigrationDir this) = Done files ->
  exists out,
    printed s (snd (executeMigration env this "up" repos token isTest s)) =
      (match notMigrated (map filename (ledger s)) files with
       | [] => [Debug "No migrations to execute. Database is up to date"]
       | _ => []
       end) ++ out /\
    ~ In (Debug "No migrations to execute. Database is up to date") out.
Proof.
  intros Hdir. unfold executeMigration. run_step. rewrite Hdir. simpl.
  destruct (notMigrated (map filename (ledger s)) files) as [|f0 pending] eqn:Ep.
  - simpl. exists []. split; [since_now; reflexivity|auto].
  - cbv beta iota. change (List.length (f0 :: pending) =? 0)%nat with false. cbv beta iota.
    match goal with
    | |- context [forUp env this repos isTest ?l ?a] =>
        destruct (forUp_output repos isTest l a) as (out & Ho & Hn);
        destruct (forUp env this repos isTest l a) as [r1 a1]
    end.
    simpl in Ho. exists out. split; [|exact Hn].
    assert (Hp : printed s a1 = out).
    { unfold printed. now rewrite Ho, skipn_app, skipn_all, Nat.sub_diag. }
    destruct r1; simpl; exact Hp.
Qed.

(** C1. A forward run works on exactly the files of the listing whose name
    equals no [filename] of the ledger.  It goes through that pending list
    in sorted order: the files whose [up] returned are an initial part
    [pre] of it, with their entries in the ledger (none in a test run), and
    the run ends either with nothing left, returning, or at the first file
    left, because its module exports no [up] (the run prints that and
    returns), cannot be imported, or its [up] throws (the run throws).  So a
    run that returns without reporting a missing [up] has called the [up] of
    every pending file, and of no other.  The run prints that the database
    is up to date exactly when nothing is pending; when every listed file is
    in the ledger, that is the case: it prints that line alone, calls no
    transform, leaves ledger and store alone and returns. *)
Theorem forward_run_pending_set
    (repos : option Repos) (token : string) (isTest : bool)
    (C : list string) (s : State Store) :
  readdir env (rawMigrationDir this) = Done C ->
  let L := map filename (ledger s) in
  let pending := notMigrated L C in
  let run := executeMigration env this "up" repos token isTest s in
  (forall f, In f pending <-> In f C /\ ~ In f L) /\
  (exists pre rest c,
     sortFiles pending = pre ++ rest /\
     upsReturned (since s (snd run)) = pre /\
     ledger (snd run) = ledger s ++ created (since s (snd run)) /\
     map filename (created (since s (snd run))) = (if isTest then [] else pre) /\
     UpEnding env this pre rest c (since s (snd run)) (printed s (snd run)) /\
     fst run = voided c) /\
  (fst run = Done tt ->
   ~ In (Debug "migration up function not found") (printed s (snd run)) ->
     upsCalled (since s (snd run)) = sortFiles pending /\
     upsReturned (since s (snd run)) = sortFiles pending) /\
  (In (Debug "No migrations to execute. Database is up to date") (printed s (snd run))
     <-> pending = []) /\
  (incl C L ->
     pending = [] /\
     fst run = Done tt /\
     printed s (snd run) = [Debug "No migrations to execute. Database is up to date"] /\
     upsCalled (since s (snd run)) = [] /\
     ledger (snd run) = ledger s /\
     store (snd run) = store s).
Proof.
  intros Hdir L pending run.
  split; [intros f; apply notMigrated_In|].
  assert (Hspec : exists pre rest c,
             sortFiles pending = pre ++ rest /\
             upsReturned (since s (snd run)) = pre /\
             ledger (snd run) = ledger s ++ created (since s (snd run)) /\
             map filename (created (since s (snd run))) = (if isTest then [] else pre) /\
             UpEnding env this pre rest c (since s (snd run)) (printed s (snd run)) /\
             fst run = voided c).
  { destruct run as [r s'] eqn:E. subst run.
    destruct (executeMigration_up_spec _ _ _ _ _ _ _ Hdir E)
      as (pre & rest & c & Hs & Hl & Hm & Hr & _ & He & Hv).
    exists pre, rest, c. simpl. auto 10. }
  split; [exact Hspec|].
  split.
  { intros Hdone Hno.
    destruct Hspec as (pre & rest & c & Hs & Hr & _ & _ & He & Hv).
    rewrite Hs, Hr.
    destruct He as [Hrest Hc Hcalled Hthrew
                   |g post m Hrest Himp Hup Hc Hcalled Hthrew Hout
                   |g post e' Hrest Himp Hc Hcalled Hthrew
                   |g post e' Hrest Hhas Hc Hcalled Hthrew]; subst.
    - rewrite app_nil_r. auto.
    - contradiction.
    - rewrite Hdone in Hv. discriminate.
    - rewrite Hdone in Hv. discriminate. }
  split.
  { destruct (executeMigration_up_output repos token isTest C s Hdir) as (out & Hp & Hn).
    fold L in Hp. fold pending in Hp. fold run in Hp. rewrite Hp.
    destruct pending as [|f0 rest0]; simpl.
    - split; auto.
    - split; [intros Hin; contradiction|discriminate]. }
  intros Hincl.
  assert (Hnil : pending = []) by now apply notMigrated_nil.
  split; [exact Hnil|].
  subst run. unfold executeMigration. run_step. rewrite Hdir. simpl.
  fold L. fold pending. rewrite Hnil. simpl.
  repeat split; since_now; reflexivity.
Qed.

Lemma in_upsThrew f e tr : In (EUpThrew f e) tr -> In (f, e) (upsThrew tr).
Proof.
  intros Hin. unfold upsThrew. apply in_flat_map.
  exists (EUpThrew f e). split; [exact Hin|now left].
Qed.

Lemma since_readdir_throws action repos token isTest s e :
  readdir env (rawMigrationDir this) = Throws e ->
  since s (snd (executeMigration env this action repos token isTest s)) =
    [EReadDir (rawMigrationDir this)].
Proof.
  intros Hdir. rewrite (executeMigration_readdir_throws _ _ _ _ _ _ Hdir).
  since_now. reflexivity.
Qed.

(** C3. When the [up] of a file throws during a forward run, the run throws
    the same value.  The pending files, sorted, are then [pre ++ f :: post]
    with [f] that file: the transforms called are those of [pre] and of [f],
    those that returned are those of [pre], and the ledger gained the
    entries of [pre] and no other (none at all in a test run). *)
Theorem forward_transform_failure
    (repos : option Repos) (token : string) (isTest : bool)
    (s : State Store) (f : string) (e : Error) :
  let run := executeMigration env this "up" repos token isTest s in
  In (EUpThrew f e) (since s (snd run)) ->
  fst run = Throws e /\
  exists files pre post,
    readdir env (rawMigrationDir this) = Done files /\
    sortFiles (notMigrated (map filename (ledger s)) files) = pre ++ f :: post /\
    upsCalled (since s (snd run)) = pre ++ [f] /\
    upsReturned (since s (snd run)) = pre /\
    ledger (snd run) = ledger s ++ created (since s (snd run)) /\
    map filename (created (since s (snd run))) = (if isTest then [] else pre).
Proof.
  intros run Hin.
  destruct (readdir env (rawMigrationDir this)) as [files|e0] eqn:Hdir.
  - destruct run as [r s'] eqn:E. subst run. simpl in *.
    destruct (executeMigration_up_spec _ _ _ _ _ _ _ Hdir E)
      as (pre & rest & c & Hs & Hl & Hm & Hr & _ & He & ->).
    apply in_upsThrew in Hin.
    destruct He as [Hrest Hc Hcalled Hthrew
                   |g post m Hrest Himp Hup Hc Hcalled Hthrew Hout
                   |g post e' Hrest Himp Hc Hcalled Hthrew
                   |g post e' Hrest Hhas Hc Hcalled Hthrew];
      rewrite Hthrew in Hin; simpl in Hin; try contradiction.
    destruct Hin as [Heq|[]]. inversion Heq; subst.
    split; [reflexivity|].
    exists files, (upsReturned (since s s')), post. auto 10.
  - exfalso. subst run.
    rewrite (since_readdir_throws _ _ _ _ _ _ Hdir) in Hin.
    destruct Hin as [Hin|[]]. discriminate.
Qed.

Lemma app_eq_firstn {A} (a b c d : list A) :
  a ++ b = c ++ d -> List.length a <= List.length c -> a = firstn (List.length a) c.
Proof.
  intros Heq Hle.
  assert (H : firstn (List.length a) (a ++ b) = firstn (List.length a) (c ++ d))
    by now rewrite Heq.
  rewrite firstn_app, Nat.sub_diag, firstn_all in H. simpl in H.
  rewrite app_nil_r in H.
  rewrite firstn_app in H.
  replace (List.length a - List.length c) with 0 in H by lia.
  simpl in H. now rewrite app_nil_r in H.
Qed.

Lemma app_eq_nth {A} (a b c d : list A) (x y : A) :
  a ++ x :: b = c ++ y :: d -> List.length c < List.length a -> In y a.
Proof.
  intros Heq Hlt.
  assert (H : nth_error (a ++ x :: b) (List.length c) = Some y).
  { rewrite Heq, nth_error_app2, Nat.sub_diag by lia. reflexivity. }
  rewrite nth_error_app1 in H by lia.
  eapply nth_error_In; eauto.
Qed.

Lemma app_eq_same_length {A} (a b c d : list A) (x y : A) :
  a ++ x :: b = c ++ y :: d -> List.length a = List.length c -> x = y.
Proof.
  intros Heq Hlen.
  assert (H : nth_error (a ++ x :: b) (List.length a) = nth_error (c ++ y :: d) (List.length a))
    by now rewrite Heq.
  rewrite nth_error_app2, Nat.sub_diag in H by lia.
  rewrite Hlen, nth_error_app2, Nat.sub_diag in H by lia.
  simpl in H. congruence.
Qed.

(** C4. A pending file [f] whose compiled module exports no [up] stops the
    forward run: with the pending files, sorted, being [pre ++ f :: post],
    the transforms called and the ledger entries written are those of an
    initial part of [pre], so neither [f] nor a file of [post] is executed
    or recorded.  When the files of [pre] all completed, the run prints that
    the function was not found and returns; it throws only when a file of
    [pre] failed. *)
Theorem missing_up_aborts_batch
    (repos : option Repos) (token : string) (isTest : bool)
    (s : State Store) (files pre post : list string) (f : string)
    (m : MigrationModule Store Repos) :
  readdir env (rawMigrationDir this) = Done files ->
  sortFiles (notMigrated (map filename (ledger s)) files) = pre ++ f :: post ->
  importModule env (modulePath this f) = Done m ->
  up m = None ->
  let run := executeMigration env this "up" repos token isTest s in
  exists n k,
    n <= k <= List.length pre /\
    upsReturned (since s (snd run)) = firstn n pre /\
    upsCalled (since s (snd run)) = firstn k pre /\
    ledger (snd run) = ledger s ++ created (since s (snd run)) /\
    map filename (created (since s (snd run))) = (if isTest then [] else firstn n pre) /\
    (n = List.length pre ->
       fst run = Done tt /\
       In (Debug "migration up function not found") (printed s (snd run))) /\
    (forall e, fst run = Throws e -> n < List.length pre).
Proof.
  intros Hdir Hsorted Himp Hup run.
  destruct run as [r s'] eqn:E. subst run. simpl.
  destruct (executeMigration_up_spec _ _ _ _ _ _ _ Hdir E)
    as (pre' & rest & c & Hs & Hl & Hm & Hr & Hf & He & ->).
  rewrite Hsorted in Hs.
  assert (Hno : ~ hasUp env this f).
  { intros (m' & t & Hi & Hu). congruence. }
  assert (Hle : List.length pre' <= List.length pre).
  { destruct (le_lt_dec (List.length pre') (List.length pre)) as [|Hlt]; [assumption|].
    exfalso. apply Hno.
    destruct rest as [|g rest'].
    - rewrite app_nil_r in Hs. subst pre'.
      rewrite Forall_forall in Hf. apply Hf. apply in_or_app. right. now left.
    - symmetry in Hs. apply app_eq_nth in Hs; [|lia].
      rewrite Forall_forall in Hf. now apply Hf. }
  assert (Hpre' : pre' = firstn (List.length pre') pre).
  { symmetry in Hs. eapply app_eq_firstn; eauto. }
  destruct He as [Hrest Hc Hcalled Hthrew
                 |g post' m' Hrest Himp' Hup' Hc Hcalled Hthrew Hout
                 |g post' e' Hrest Himp' Hc Hcalled Hthrew
                 |g post' e' Hrest Hhas Hc Hcalled Hthrew]; subst rest c.
  - exfalso. rewrite app_nil_r in Hs. subst pre'.
    rewrite length_app in Hle. simpl in Hle. lia.
  - exists (List.length pre'), (List.length pre').
    rewrite Hr, Hcalled, <- Hpre'. simpl.
    repeat split; auto; try lia.
    intros e He. discriminate.
  - assert (Hlt : List.length pre' < List.length pre).
    { destruct (Nat.eq_dec (List.length pre') (List.length pre)) as [Heq|]; [|lia].
      exfalso. symmetry in Hs. apply app_eq_same_length in Hs; [|exact Heq].
      subst g. congruence. }
    exists (List.length pre'), (List.length pre').
    rewrite Hr, Hcalled, <- Hpre'. simpl.
    repeat split; auto; try lia.
  - assert (Hlt : List.length pre' < List.length pre).
    { destruct (Nat.eq_dec (List.length pre') (List.length pre)) as [Heq|]; [|lia].
      exfalso. symmetry in Hs. apply app_eq_same_length in Hs; [|exact Heq].
      subst g. contradiction. }
    exists (List.length pre'), (S (List.length pre')).
    rewrite Hr, Hcalled, <- Hpre'. simpl.
    assert (Hcall : pre' ++ [g] = firstn (S (List.length pre')) pre).
    { replace (S (List.length pre')) with (List.length (pre' ++ [g]))
        by (rewrite length_app; simpl; lia).
      apply (app_eq_firstn _ post' _ (f :: post)).
      - rewrite <- app_assoc. simpl. now symmetry.
      - rewrite length_app. simpl. lia. }
    repeat split; auto; try lia.
Qed.

(** *** Reverse runs *)

Lemma downsCalled_app a b : downsCalled (a ++ b) = downsCalled a ++ downsCalled b.
Proof. apply flat_map_app. Qed.

Lemma downsThrew_app a b : downsThrew (a ++ b) = downsThrew a ++ downsThrew b.
Proof. apply flat_map_app. Qed.

Lemma probed_app a b : probed (a ++ b) = probed a ++ probed b.
Proof. apply flat_map_app. Qed.

Lemma DownEnding_cons f pre rest r tr0 out0 tr out :
  probed tr0 = [jsPath this f] ->
  downsCalled tr0 = filter (compiled env this) [f] ->
  downsThrew tr0 = [] ->
  DownEnding env this pre rest r tr out ->
  DownEnding env this (f :: pre) rest r (tr0 ++ tr) (out0 ++ out).
Proof.
  intros Hp Hc Ht He.
  assert (Hprobed' : forall q, probed tr = map (jsPath this) q ->
                          probed (tr0 ++ tr) = map (jsPath this) (f :: q))
    by (intros q Hq; now rewrite probed_app, Hp, Hq).
  assert (Hcalled' : forall q, downsCalled tr = filter (compiled env this) pre ++ q ->
                          downsCalled (tr0 ++ tr) = filter (compiled env this) (f :: pre) ++ q).
  { intros q Hq. rewrite downsCalled_app, Hc, Hq. simpl.
    destruct (compiled env this f); reflexivity. }
  assert (Hthrew' : forall q, downsThrew tr = q -> downsThrew (tr0 ++ tr) = q)
    by (intros q <-; now rewrite downsThrew_app, Ht).
  destruct He as [Hrest Hr Hprobed Hcalled Hthrew
                 |g post m Hrest Hcomp Himp Hdown Hr Hprobed Hcalled Hthrew Hout
                 |g post e Hrest Hcomp Himp Hr Hprobed Hcalled Hthrew
                 |g post e Hrest Hcomp Hr Hprobed Hcalled Hthrew].
  - apply down_completed; auto.
    rewrite <- (app_nil_r (filter _ (f :: pre))). apply Hcalled'.
    now rewrite app_nil_r.
  - eapply down_missing; eauto.
    + rewrite <- (app_nil_r (filter _ (f :: pre))). apply Hcalled'.
      now rewrite app_nil_r.
    + apply in_or_app. now right.
  - eapply down_import_failed; eauto.
    rewrite <- (app_nil_r (filter _ (f :: pre))). apply Hcalled'.
    now rewrite app_nil_r.
  - eapply down_threw; eauto.
Qed.

Lemma forDown_spec (repos : option Repos) (l : list string) :
  forall s r s', forDown env this repos l s = (r, s') ->
  exists pre rest tr out,
    l = pre ++ rest /\
    grows s s' tr out [] /\
    created tr = [] /\
    upsCalled tr = [] /\
    downsReturned tr = filter (compiled env this) pre /\
    DownEnding env this pre rest r tr out.
Proof.
  induction l as [|f l IH]; intros s r s' H.
  - simpl in H. inversion H; subst.
    exists [], [], [], []. split; [reflexivity|]. split; [grows_now|].
    repeat split. apply down_completed; auto.
  - simpl in H. run_step.
    change (builtMigrationDir this ++ "/" ++ JS.replaceDotTsAtEnd f)%string
      with (modulePath this f) in H.
    change (modulePath this f ++ ".js")%string with (jsPath this f) in H.
    destruct (existsSync env (jsPath this f)) eqn:Ejs.
    + destruct (importModule env _) as [m|e] eqn:Eimp.
      * destruct (down m) as [t|] eqn:Edown; simpl in H.
        -- destruct (t repos (store s)) as [[[]|e] st] eqn:Et; simpl in H.
           ++ apply IH in H.
              destruct H as (pre & rest & tr & out & -> & Hg & Hc & Hu & Hr & He).
              exists (f :: pre), rest,
                ([EExistsSync (jsPath this f); EImport (modulePath this f);
                  EDownCalled f; EDownReturned f] ++ tr),
                ([Debug ("File to execute: " ++ modulePath this f);
                  Debug ("Migrating down " ++ f);
                  Debug (f ++ " migrated down successfully")] ++ out).
              split; [reflexivity|]. split; [grows_from Hg|].
              split; [exact Hc|]. split; [exact Hu|].
              split; [simpl; unfold compiled at 1; now rewrite Ejs, Hr|].
              apply DownEnding_cons; auto.
              simpl. unfold compiled. now rewrite Ejs.
           ++ inversion H; subst; clear H.
              exists [], (f :: l),
                [EExistsSync (jsPath this f); EImport (modulePath this f);
                 EDownCalled f; EDownThrew f e],
                [Debug ("File to execute: " ++ modulePath this f);
                 Debug ("Migrating down " ++ f)].
              split; [reflexivity|]. split; [grows_now|].
              repeat split. eapply down_threw; eauto.
        -- inversion H; subst; clear H.
           exists [], (f :: l),
             [EExistsSync (jsPath this f); EImport (modulePath this f)],
             [Debug ("File to execute: " ++ modulePath this f);
              Debug "migration down function not found"].
           split; [reflexivity|]. split; [grows_now|].
           repeat split. eapply down_missing; eauto. right. now left.
      * inversion H; subst; clear H.
        exists [], (f :: l),
          [EExistsSync (jsPath this f); EImport (modulePath this f)],
          [Debug ("File to execute: " ++ modulePath this f)].
        split; [reflexivity|]. split; [grows_now|].
        repeat split. eapply down_import_failed; eauto.
    + apply IH in H.
      destruct H as (pre & rest & tr & out & -> & Hg & Hc & Hu & Hr & He).
      exists (f :: pre), rest, ([EExistsSync (jsPath this f)] ++ tr),
        ([Debug ("File to execute: " ++ modulePath this f)] ++ out).
      split; [reflexivity|]. split; [grows_from Hg|].
      split; [exact Hc|]. split; [exact Hu|].
      split; [simpl; unfold compiled at 1; now rewrite Ejs, Hr|].
      apply DownEnding_cons; auto.
      simpl. unfold compiled. now rewrite Ejs.
Qed.

Lemma append_cons c t b : (String c t ++ b)%string = String c (t ++ b)%string.
Proof. reflexivity. Qed.



Lemma executeMigration_down_spec repos token isTest files s r s' :
  token <> "" ->
  readdir env (rawMigrationDir this) = Done files ->
  executeMigration env this "down" repos token isTest s = (r, s') ->
  exists pre rest c tr out tail,
    filter (fun file => JS.includes file token) (map filename (ledger s)) = pre ++ rest /\
    since s s' = [EReadDir (rawMigrationDir this); EFind] ++ tr /\
    printed s s' = out ++ tail /\
    ledger s' = ledger s /\
    created tr = [] /\ upsCalled tr = [] /\
    downsReturned tr = filter (compiled env this) pre /\
    DownEnding env this pre rest c tr out /\
    r = voided c.
Proof.
  intros Htok Hdir H. unfold executeMigration in H. run_step.
  rewrite Hdir in H. simpl in H.
  apply String.eqb_neq in Htok. rewrite Htok in H.
  set (names := map filename (ledger s)) in *.
  set (selected := filter (fun file => JS.includes file token) names) in *.
  destruct selected as [|f0 sel] eqn:Esel.
  - inversion H; subst; clear H.
    exists [], [], (Done Normal), [],
      [], [Debug "You're trying to migrate down a file that is not yet migrated"].
    repeat split; try (since_now; reflexivity).
    apply down_completed; auto.
  - rewrite <- Esel in *. clear Esel.
    match type of H with
    | context [forDown env this repos ?l ?s0] =>
        destruct (forDown env this repos l s0) as [c s1] eqn:E
    end.
    apply forDown_spec in E.
    destruct E as (pre & rest & tr & out & Hl & Hg & Hc & Hu & Hr & He).
    assert (Hg' : grows s s1 ([EReadDir (rawMigrationDir this); EFind] ++ tr) ([] ++ out) [])
      by grows_from Hg.
    destruct c as [[]|e]; inversion H; subst; clear H.
    + exists pre, rest, (Done Normal), tr, out, [ConsoleLog names selected].
      destruct Hg' as (Ht & Ho & Hled). rewrite app_nil_r in Hled.
      repeat split; auto;
        unfold since, printed; simpl; rewrite ?Ht, ?Ho;
        rewrite <- ?app_assoc, ?skipn_app, ?skipn_all, ?Nat.sub_diag; reflexivity.
    + exists pre, rest, (Done Return), tr, out, [].
      destruct (grows_since _ _ _ _ _ Hg') as (-> & -> & _).
      destruct Hg' as (_ & _ & Hled). rewrite app_nil_r in Hled.
      rewrite app_nil_r. repeat split; auto.
    + exists pre, rest, (Throws e), tr, out, [].
      destruct (grows_since _ _ _ _ _ Hg') as (-> & -> & _).
      destruct Hg' as (_ & _ & Hled). rewrite app_nil_r in Hled.
      rewrite app_nil_r. repeat split; auto.
Qed.




(** *** The other actions *)

Lemma since_refl (s : State Store) : since s s = [] /\ printed s s = [].
Proof. unfold since, printed. now rewrite !skipn_all. Qed.

Lemma generateMigrationFile_frame filename s :
  let run := generateMigrationFile env this filename s in
  ledger (snd run) = ledger s /\ created (since s (snd run)) = [] /\
  upsCalled (since s (snd run)) = [] /\ downsCalled (since s (snd run)) = [].
Proof.
  unfold generateMigrationFile. run_step.
  destruct (existsSync env (rawMigrationDir this)); simpl.
  - destruct (writeFile env _ _); simpl; repeat split; since_now; reflexivity.
  - destruct (mkdirSync env _); simpl.
    + destruct (writeFile env _ _); simpl; repeat split; since_now; reflexivity.
    + repeat split; since_now; reflexivity.
Qed.

Lemma onLaterProcEvents_spec evs (s : State Store) :
  exists out,
    onLaterProcEvents evs s =
      (Done tt,
       {| store := store s; ledger := ledger s; ticks := ticks s;
          output := output s ++ out; trace := trace s |}).
Proof.
  revert s. induction evs as [|ev evs IH]; intros s.
  - exists []. simpl. unfold ret. rewrite app_nil_r. now destruct s.
  - simpl. unfold bind.
    destruct ev as [e|code signal]; simpl; run_step;
      match goal with
      | |- context [onLaterProcEvents evs ?s0] => destruct (IH s0) as (out & ->)
      end; simpl; eexists; rewrite <- app_assoc; reflexivity.
Qed.

(** What [backupMongoDb] returns is decided by the first event of the
    process. *)
Lemma backupMongoDb_spec s :
  let name := appendTimestampToFilename_at (clock env (ticks s)) "db" None in
  let run := backupMongoDb env this s in
  fst run =
    match fst (spawn env "sh" ["-c"; backupCommand env this name]) with
    | ProcError e => Throws e
    | ProcClose _ _ => Done true
    end /\
  trace (snd run) = trace s ++ [ESpawn "sh" ["-c"; backupCommand env this name]] /\
  ledger (snd run) = ledger s /\
  store (snd run) = store s.
Proof.
  unfold backupMongoDb. run_step.
  destruct (spawn env _ _) as [first later]. simpl.
  destruct first as [e|code signal]; simpl; run_step;
    match goal with
    | |- context [onLaterProcEvents later ?s0] =>
        destruct (onLaterProcEvents_spec later s0) as (out & ->)
    end; simpl; repeat split; reflexivity.
Qed.

Lemma since_trace (s s' : State Store) tr : trace s' = trace s ++ tr -> since s s' = tr.
Proof.
  intros H. unfold since. now rewrite H, skipn_app, skipn_all, Nat.sub_diag.
Qed.

Lemma executeMigration_backup_frame repos token isTest s :
  let run := executeMigration env this "backup" repos token isTest s in
  ledger (snd run) = ledger s /\ created (since s (snd run)) = [] /\
  upsCalled (since s (snd run)) = [] /\ downsCalled (since s (snd run)) = [].
Proof.
  destruct (readdir env (rawMigrationDir this)) as [files|e] eqn:Hdir.
  - unfold executeMigration. run_step. rewrite Hdir. simpl.
    match goal with
    | |- context [backupMongoDb env this ?s0] =>
        pose proof (backupMongoDb_spec s0) as Hb;
        destruct (backupMongoDb env this s0) as [r s1]
    end.
    simpl in Hb. destruct Hb as (_ & Ht & Hl & _).
    rewrite <- !app_assoc in Ht. apply (since_trace s) in Ht.
    destruct r; simpl; rewrite Hl, Ht; repeat split.
  - simpl. rewrite (executeMigration_readdir_throws _ _ _ _ _ _ Hdir). simpl.
    repeat split; since_now; reflexivity.
Qed.

Lemma executeMigration_down_frame repos token isTest s :
  let run := executeMigration env this "down" repos token isTest s in
  ledger (snd run) = ledger s /\ created (since s (snd run)) = [] /\
  upsCalled (since s (snd run)) = [].
Proof.
  destruct (readdir env (rawMigrationDir this)) as [files|e] eqn:Hdir.
  - destruct (String.eqb_spec token "") as [->|Htok].
    + unfold executeMigration. run_step. rewrite Hdir. simpl.
      repeat split; since_now; reflexivity.
    + intros run. destruct run as [r s'] eqn:E. subst run.
      destruct (executeMigration_down_spec _ _ _ _ _ _ _ Htok Hdir E)
        as (pre & rest & c & tr & out & tail & _ & Hsince & _ & Hled & Hc & Hu & _).
      simpl. rewrite Hsince. simpl. auto.
  - simpl. rewrite (executeMigration_readdir_throws _ _ _ _ _ _ Hdir). simpl.
    repeat split; since_now; reflexivity.
Qed.

Lemma isString_true o x : isString o x = true <-> o = Some x.
Proof.
  destruct o as [y|]; simpl; [|split; discriminate].
  rewrite String.eqb_eq. split; congruence.
Qed.

Lemma isString_false o x : isString o x = false <-> o <> Some x.
Proof.
  rewrite <- isString_true. destruct (isString o x); split; congruence.
Qed.

(** [migrate] on the action [up]. *)
Lemma migrate_up args repos :
  nth_error args 2 = Some "up" ->
  migrate env this args repos =
    executeMigration env this "up" repos (tokenOf args)
      (isString (nth_error args 3) "test").
Proof.
  intros H2. unfold migrate, tokenOf. rewrite H2.
  destruct (nth_error args 3) as [t|]; simpl; [|reflexivity].
  destruct (String.eqb_spec t "") as [->|]; reflexivity.
Qed.

(** [migrate] on the action [create]. *)
Lemma migrate_create args repos :
  nth_error args 2 = Some "create" ->
  migrate env this args repos =
    match (if JS.truthy (nth_error args 3) then nth_error args 3 else None) with
    | None => throw (MkError "Filename is missing")
    | Some filename => generateMigrationFile env this filename
    end.
Proof. intros H2. unfold migrate. now rewrite H2. Qed.

(** [migrate] on the action [down]. *)
Lemma migrate_down args repos :
  nth_error args 2 = Some "down" ->
  migrate env this args repos =
    executeMigration env this "down" repos (tokenOf args)
      (isString (nth_error args 3) "test").
Proof.
  intros H2. unfold migrate, tokenOf. rewrite H2.
  destruct (nth_error args 3) as [t|]; simpl; [|reflexivity].
  destruct (String.eqb_spec t "") as [->|]; reflexivity.
Qed.

(** C5. Whatever the arguments of [migrate], the ledger after the call is
    the ledger before it followed by the entries handed to
    [migrationRepo.create]; those are one entry for each file whose [up]
    returned when the action is [up] and the token is not [test], and none
    in every other case: a test run, [down], [create], [backup], anything
    else.  A forward run, test or not, that returns without reporting a
    missing [up] has called the [up] of every pending file. *)
Theorem ledger_written_only_by_forward_runs
    (args : list string) (repos : option Repos) (s : State Store) :
  let run := migrate env this args repos s in
  let tr := since s (snd run) in
  let forward := isString (nth_error args 2) "up" in
  let test := isString (nth_error args 3) "test" in
  ledger (snd run) = ledger s ++ created tr /\
  map filename (created tr) = (if forward && negb test then upsReturned tr else []) /\
  (forward = false -> upsCalled tr = []) /\
  (forward = true ->
   forall files, readdir env (rawMigrationDir this) = Done files ->
     fst run = Done tt ->
     ~ In (Debug "migration up function not found") (printed s (snd run)) ->
     upsReturned tr = sortFiles (notMigrated (map filename (ledger s)) files)).
Proof.
  intros run tr forward test.
  assert (Hquiet : forall (r : result unit * State Store),
             ledger (snd r) = ledger s /\ created (since s (snd r)) = [] /\
             upsCalled (since s (snd r)) = [] ->
             run = r -> forward = false ->
             ledger (snd run) = ledger s ++ created tr /\
             map filename (created tr) =
               (if forward && negb test then upsReturned tr else []) /\
             (forward = false -> upsCalled tr = []) /\
             (forward = true ->
              forall files, readdir env (rawMigrationDir this) = Done files ->
                fst run = Done tt ->
                ~ In (Debug "migration up function not found") (printed s (snd run)) ->
                upsReturned tr = sortFiles (notMigrated (map filename (ledger s)) files))).
  { intros r (Hl & Hc & Hu) Hrun Hf. subst tr. rewrite Hrun, Hf, Hl, Hc, Hu. simpl.
    rewrite app_nil_r. repeat split. discriminate. }
  destruct forward eqn:Hfwd; subst forward.
  - apply isString_true in Hfwd. clear Hquiet.
    subst tr run. rewrite (migrate_up _ _ Hfwd). fold test.
    destruct (executeMigration env this "up" repos (tokenOf args) test s) as [r s'] eqn:E.
    simpl.
    destruct (readdir env (rawMigrationDir this)) as [files|e] eqn:Hdir.
    + destruct (executeMigration_up_spec _ _ _ _ _ _ _ Hdir E)
        as (pre & rest & c & Hs & Hl & Hm & Hr & _ & He & ->).
      split; [exact Hl|]. split; [rewrite Hm, Hr; now destruct test|].
      split; [discriminate|].
      intros _ files' Hfiles' Hdone Hno. injection Hfiles' as <-.
      rewrite Hs.
      destruct He as [Hrest Hc Hcalled Hthrew
                     |g post m Hrest Himp Hup Hc Hcalled Hthrew Hout
                     |g post e' Hrest Himp Hc Hcalled Hthrew
                     |g post e' Hrest Hhas Hc Hcalled Hthrew]; subst.
      * now rewrite app_nil_r.
      * contradiction.
      * discriminate.
      * discriminate.
    + rewrite (executeMigration_readdir_throws _ _ _ _ _ _ Hdir) in E.
      inversion E; subst. simpl.
      assert (Hs : since s {| store := store s; ledger := ledger s; ticks := ticks s;
                              output := output s;
                              trace := trace s ++ [EReadDir (rawMigrationDir this)] |}
                   = [EReadDir (rawMigrationDir this)])
        by (since_now; reflexivity).
      rewrite Hs. simpl. rewrite app_nil_r.
      repeat split; try discriminate. now destruct test.
  - apply isString_false in Hfwd.
    destruct (nth_error args 2) as [a|] eqn:H2.
    + destruct (String.eqb_spec a "down") as [->|Hnd].
      * eapply Hquiet; [|subst run; now rewrite (migrate_down _ _ H2)|reflexivity].
        apply executeMigration_down_frame.
      * destruct (String.eqb_spec a "create") as [->|Hnc].
        -- eapply Hquiet; [|unfold run; now rewrite (migrate_create _ _ H2)|reflexivity].
           destruct (nth_error args 3) as [t|]; simpl;
             [destruct (String.eqb_spec t "") as [->|]; simpl|].
           ++ unfold throw. simpl. destruct (since_refl s) as [-> _]. auto.
           ++ pose proof (generateMigrationFile_frame t s) as Hg. simpl in Hg. tauto.
           ++ unfold throw. simpl. destruct (since_refl s) as [-> _]. auto.
        -- destruct (String.eqb_spec a "backup") as [->|Hnb].
           ++ eapply Hquiet; [|unfold run, migrate; rewrite H2; reflexivity|reflexivity].
              pose proof (executeMigration_backup_frame repos "" false s) as Hb.
              simpl in Hb. tauto.
           ++ assert (Hnu : a <> "up") by congruence.
              apply String.eqb_neq in Hnd, Hnc, Hnb, Hnu.
              eapply Hquiet; [| |reflexivity].
              2:{ unfold run, migrate. rewrite H2. unfold isString.
                  destruct (JS.truthy (Some a)); rewrite ?Hnd, ?Hnc, ?Hnb, ?Hnu; reflexivity. }
              destruct (JS.truthy (Some a)); run_step;
                repeat split; since_now; reflexivity.
    + eapply Hquiet; [|unfold run, migrate; rewrite H2; reflexivity|reflexivity].
      run_step. repeat split; since_now; reflexivity.
Qed.

Lemma tokenOf_falsy args : JS.truthy (nth_error args 3) = false -> tokenOf args = "" .
Proof.
  unfold tokenOf. destruct (nth_error args 3) as [t|]; simpl; [|reflexivity].
  destruct (String.eqb_spec t "") as [->|]; [reflexivity|discriminate].
Qed.

(** C8, as the code has it.  [create] without a name throws
    [Error('Filename is missing')] to the caller of [migrate], with nothing
    printed and neither the file system nor the ledger touched.  [down]
    without a token lists the directory and reads the ledger, then prints
    [Filename is missing] and returns, with no transform called and the
    ledger and the store as they were; when the directory cannot be listed
    the error of the listing is thrown instead. *)
Theorem missing_argument
    (args : list string) (repos : option Repos) (s : State Store) :
  JS.truthy (nth_error args 3) = false ->
  let run := migrate env this args repos s in
  (nth_error args 2 = Some "create" ->
     run = (Throws (MkError "Filename is missing"), s)) /\
  (nth_error args 2 = Some "down" ->
     (forall files, readdir env (rawMigrationDir this) = Done files ->
        fst run = Done tt /\
        printed s (snd run) = [Debug "Filename is missing"] /\
        since s (snd run) = [EReadDir (rawMigrationDir this); EFind] /\
        ledger (snd run) = ledger s /\
        store (snd run) = store s) /\
     (forall e, readdir env (rawMigrationDir this) = Throws e ->
        fst run = Throws e /\
        printed s (snd run) = [] /\
        since s (snd run) = [EReadDir (rawMigrationDir this)] /\
        ledger (snd run) = ledger s /\
        store (snd run) = store s)).
Proof.
  intros H3 run. split.
  - intros H2. subst run. rewrite (migrate_create _ _ H2), H3. reflexivity.
  - intros H2. subst run. rewrite (migrate_down _ _ H2), (tokenOf_falsy _ H3).
    split.
    + intros files Hdir. unfold executeMigration. run_step. rewrite Hdir. simpl.
      repeat split; since_now; reflexivity.
    + intros e Hdir. rewrite (executeMigration_readdir_throws _ _ _ _ _ _ Hdir). simpl.
      repeat split; since_now; reflexivity.
Qed.

(** C9, as the code has it.  [backupMongoDb] settles on the first event of
    the dump process: it rejects with the error of the process when that
    event is [error] (the process could not be started), and it resolves
    [true] when that event is [close], whatever the exit code or the
    signal. *)
Theorem backup_settles_on_first_event (s : State Store) :
  let name := appendTimestampToFilename_at (clock env (ticks s)) "db" None in
  let run := backupMongoDb env this s in
  match fst (spawn env "sh" ["-c"; backupCommand env this name]) with
  | ProcError e => fst run = Throws e
  | ProcClose code signal => fst run = Done true
  end /\
  since s (snd run) = [ESpawn "sh" ["-c"; backupCommand env this name]] /\
  ledger (snd run) = ledger s.
Proof.
  intros name run.
  destruct (backupMongoDb_spec s) as (Hr & Ht & Hl & _).
  fold name in Hr, Ht. fold run in Hr, Ht, Hl.
  split; [|split; [now apply since_trace|exact Hl]].
  rewrite Hr. now destruct (fst (spawn env "sh" ["-c"; backupCommand env this name])).
Qed.

(** C10. On the action [up] the token only matters through being [test] or
    not: two argument vectors with the action [up] and tokens other than
    [test] (or no token) make [migrate] the same computation, so from the
    same state they reach the same result and the same state, with the same
    transforms called and the same ledger entries written. *)
Theorem up_token_is_ignored
    (args1 args2 : list string) (repos : option Repos) (s : State Store) :
  nth_error args1 2 = Some "up" ->
  nth_error args2 2 = Some "up" ->
  nth_error args1 3 <> Some "test" ->
  nth_error args2 3 <> Some "test" ->
  migrate env this args1 repos s = migrate env this args2 repos s.
Proof.
  intros Ha1 Ha2 Ht1 Ht2.
  rewrite (migrate_up _ _ Ha1), (migrate_up _ _ Ha2).
  apply isString_false in Ht1, Ht2. rewrite Ht1, Ht2.
  reflexivity.
Qed.

(** C7, as the code has it.  The method returns the name computed from the
    date it reads; for the name [My Migration], the extension [ts] and the
    local time 2024-05-07 03:04:05 that name is
    [my migration_05-07-2024_030405.ts]: trimmed, in lower case, the space
    kept (only underscores become hyphens), the fields padded to two
    digits. *)
Theorem timestamp_of_my_migration (s : State Store) :
  fst (appendTimestampToFilename env "My Migration" (Some "ts") s) =
    Done (appendTimestampToFilename_at (clock env (ticks s)) "My Migration" (Some "ts")) /\
  forall iso,
    appendTimestampToFilename_at
      {| getFullYear := 2024; getMonth := 4; getDate := 7;
         getHours := 3; getMinutes := 4; getSeconds := 5;
         toISOString := iso |}
      "My Migration" (Some "ts")
    = "my migration_05-07-2024_030405.ts".
Proof. split; reflexivity. Qed.

End Runs.

Lemma StronglySorted_impl {A} (R R' : A -> A -> Prop) l :
  (forall x y, R x y -> R' x y) -> StronglySorted R l -> StronglySorted R' l.
Proof.
  intros Himp. induction 1 as [|x l Hs IH Hall]; constructor; auto.
  eapply Forall_impl; [|exact Hall]. auto.
Qed.

(** C2. [sortFiles] rearranges its argument so that the suffixes after the
    first underscore ascend in the order of the code units; the key its
    comparator extracts by [split], [shift] and [join] is that suffix; the
    comparator answers 0 exactly when the two suffixes are the same string
    and a negative number exactly when the first is smaller, looking at
    nothing else. *)
Theorem sortFiles_orders_by_suffix (files : list string) :
  Permutation files (sortFiles files) /\
  StronglySorted
    (fun f g => String.leb (suffixAfterFirstUnderscore f)
                           (suffixAfterFirstUnderscore g) = true)
    (sortFiles files) /\
  (forall f, filePart f = suffixAfterFirstUnderscore f) /\
  (forall f g, compareFiles f g = 0%Z <->
               suffixAfterFirstUnderscore f = suffixAfterFirstUnderscore g) /\
  (forall f g, (compareFiles f g < 0)%Z <->
               String.ltb (suffixAfterFirstUnderscore f)
                          (suffixAfterFirstUnderscore g) = true).
Proof.
  split; [apply sortFiles_perm|].
  split.
  { eapply StronglySorted_impl; [|apply sortFiles_sorted].
    intros x y. unfold partLe. now rewrite !filePart_suffix. }
  split; [apply filePart_suffix|].
  split; intros f g; unfold compareFiles; rewrite !filePart_suffix;
    destruct (String.eqb_spec (suffixAfterFirstUnderscore f) (suffixAfterFirstUnderscore g))
      as [Heq|Hne].
  - tauto.
  - destruct (String.ltb _ _); split; intros; try discriminate; contradiction.
  - rewrite Heq. unfold String.ltb. rewrite string_compare_refl. split; [lia|discriminate].
  - destruct (String.ltb _ _); split; intros; try reflexivity; try lia; discriminate.
Qed.

(** ** The theorems on the example world *)

Lemma forward_run_pending_set_witness :
  readdir Example.twoListed (rawMigrationDir Example.service)
    = Done [Example.fileC; Example.fileA] /\
  upsCalled
    (since (Example.start [Example.applied Example.fileC])
       (snd (executeMigration Example.twoListed Example.service "up" None "" false
               (Example.start [Example.applied Example.fileC]))))
    = [Example.fileA] /\
  ~ In (Debug "No migrations to execute. Database is up to date")
       (printed (Example.start [Example.applied Example.fileC])
          (snd (executeMigration Example.twoListed Example.service "up" None "" false
                  (Example.start [Example.applied Example.fileC])))).
Proof.
  split; [reflexivity|].
  destruct (forward_run_pending_set Example.twoListed Example.service None "" false
              [Example.fileC; Example.fileA]
              (Example.start [Example.applied Example.fileC])
              eq_refl) as (_ & _ & Hall & Hline & _).
  split.
  - destruct Hall as [Hcalled _]; [reflexivity| |exact Hcalled].
    vm_compute. intros [H|[H|[]]]; discriminate.
  - intros Hin. apply Hline in Hin. discriminate.
Defined.

Lemma forward_transform_failure_witness :
  In (EUpThrew Example.fileB (MkError "b up"))
     (since (Example.start [])
        (snd (executeMigration Example.allListed Example.service "up" None "" false
                (Example.start [])))) /\
  fst (executeMigration Example.allListed Example.service "up" None "" false
         (Example.start []))
    = Throws (MkError "b up").
Proof.
  assert (Hin : In (EUpThrew Example.fileB (MkError "b up"))
                  (since (Example.start [])
                     (snd (executeMigration Example.allListed Example.service "up" None ""
                             false (Example.start []))))).
  { vm_compute. do 8 right. left. reflexivity. }
  split; [exact Hin|].
  exact (proj1 (forward_transform_failure Example.allListed Example.service None "" false
                  (Example.start []) Example.fileB (MkError "b up") Hin)).
Defined.

Lemma missing_up_aborts_batch_witness :
  sortFiles (notMigrated (map filename (ledger (Example.start [])))
               [Example.fileC; Example.fileA])
    = [Example.fileA] ++ Example.fileC :: [] /\
  exists n k,
    n <= k <= 1 /\
    upsCalled (since (Example.start [])
                 (snd (executeMigration Example.twoListed Example.service "up" None ""
                         false (Example.start []))))
      = firstn k [Example.fileA].
Proof.
  split; [reflexivity|].
  destruct (missing_up_aborts_batch Example.twoListed Example.service None "" false
              (Example.start []) [Example.fileC; Example.fileA]
              [Example.fileA] [] Example.fileC
              {| up := None; down := Some (Example.note "c down") |}
              eq_refl eq_refl eq_refl eq_refl) as (n & k & Hnk & _ & Hcalled & _).
  exists n, k. split; [exact Hnk|exact Hcalled].
Defined.


Lemma missing_argument_witness :
  JS.truthy (nth_error ["node"; "migrate.js"; "create"] 3) = false /\
  migrate Example.allListed Example.service ["node"; "migrate.js"; "create"] None
    (Example.start [])
  = (Throws (MkError "Filename is missing"), Example.start []).
Proof.
  split; [reflexivity|].
  apply (missing_argument Example.allListed Example.service
           ["node"; "migrate.js"; "create"] None (Example.start []) eq_refl).
  reflexivity.
Defined.

Lemma up_token_is_ignored_witness :
  migrate Example.allListed Example.service ["node"; "migrate.js"; "up"] None
    (Example.start [])
  = migrate Example.allListed Example.service ["node"; "migrate.js"; "up"; "backup:true"] None
      (Example.start []).
Proof.
  apply up_token_is_ignored; [reflexivity|reflexivity|discriminate|discriminate].
Defined.

(** ** Where the code departs from the specification *)

(** Spaces inside the name stay: the name of the specification's example,
    with a hyphen, is not what the code returns. *)
Lemma timestamp_keeps_spaces :
  appendTimestampToFilename_at Example.date_2024_05_07 "My Migration" (Some "ts")
    <> "my-migration_05-07-2024_030405.ts".
Proof. vm_compute. discriminate. Qed.

(** [create] without a name: the error reaches the caller of [migrate], and
    nothing is printed. *)
Lemma create_without_name_throws :
  fst (migrate Example.allListed Example.service ["node"; "migrate.js"; "create"] None
         (Example.start []))
    = Throws (MkError "Filename is missing") /\
  output (snd (migrate Example.allListed Example.service ["node"; "migrate.js"; "create"] None
                 (Example.start [])))
    = [].
Proof. split; reflexivity. Qed.

(** A dump that ends with exit code 1 makes [backupMongoDb] resolve [true],
    not reject. *)
Lemma backup_resolves_on_failed_dump :
  fst (spawn (Example.world [] Example.dumpFailed) "sh"
         ["-c"; backupCommand (Example.world [] Example.dumpFailed) Example.service
                  "db_05-07-2024_030405"])
    = ProcClose (Some 1%Z) None /\
  fst (backupMongoDb (Example.world [] Example.dumpFailed) Example.service (Example.start []))
    = Done true /\
  ~ (exists e,
       fst (backupMongoDb (Example.world [] Example.dumpFailed) Example.service
              (Example.start []))
         = Throws e).
Proof.
  split; [reflexivity|]. split; [reflexivity|].
  intros (e & He). vm_compute in He. discriminate.
Qed.

(** ** File names: normalization, sort key, module path *)

Lemma appendTimestampToFilename_at_parts d name extension :
  appendTimestampToFilename_at d name extension =
    (normalize name ++ "_" ++ stringDateOf d ++ extensionSuffix extension)%string.
Proof. reflexivity. Qed.

Lemma mapChars_compose f g s : JS.mapChars f (JS.mapChars g s) = JS.mapChars (fun c => f (g c)) s.
Proof. induction s as [|c r IH]; simpl; [reflexivity|]. now rewrite IH. Qed.

Lemma mapChars_ext f g s : (forall c, f c = g c) -> JS.mapChars f s = JS.mapChars g s.
Proof. intros H. induction s as [|c r IH]; simpl; [reflexivity|]. now rewrite H, IH. Qed.

Lemma normalize_mapChars s : normalize s = JS.mapChars normChar (JS.trim s).
Proof.
  unfold normalize, JS.replaceUnderscores, JS.toLowerCase.
  rewrite mapChars_compose. reflexivity.
Qed.

Lemma normChar_whitespace c : JS.isWhiteSpace (normChar c) = JS.isWhiteSpace c.
Proof.
  destruct c as [b0 b1 b2 b3 b4 b5 b6 b7].
  destruct b0, b1, b2, b3, b4, b5, b6, b7; reflexivity.
Qed.

Lemma normChar_idempotent c : normChar (normChar c) = normChar c.
Proof.
  destruct c as [b0 b1 b2 b3 b4 b5 b6 b7].
  destruct b0, b1, b2, b3, b4, b5, b6, b7; reflexivity.
Qed.

Lemma normChar_not_underscore c : Ascii.eqb (normChar c) "_" = false.
Proof.
  destruct c as [b0 b1 b2 b3 b4 b5 b6 b7].
  destruct b0, b1, b2, b3, b4, b5, b6, b7; reflexivity.
Qed.

Lemma trimStart_mapChars f s :
  (forall c, JS.isWhiteSpace (f c) = JS.isWhiteSpace c) ->
  JS.trimStart (JS.mapChars f s) = JS.mapChars f (JS.trimStart s).
Proof.
  intros Hf. induction s as [|c r IH]; simpl; [reflexivity|].
  rewrite Hf. destruct (JS.isWhiteSpace c); [exact IH|reflexivity].
Qed.

Lemma trimEnd_mapChars f s :
  (forall c, JS.isWhiteSpace (f c) = JS.isWhiteSpace c) ->
  JS.trimEnd (JS.mapChars f s) = JS.mapChars f (JS.trimEnd s).
Proof.
  intros Hf. induction s as [|c r IH]; simpl; [reflexivity|].
  rewrite IH, Hf.
  destruct (JS.trimEnd r); simpl; [destruct (JS.isWhiteSpace c)|]; reflexivity.
Qed.

Lemma trimEnd_idempotent s : JS.trimEnd (JS.trimEnd s) = JS.trimEnd s.
Proof.
  induction s as [|c r IH]; simpl; [reflexivity|].
  destruct (JS.trimEnd r) as [|d r'] eqn:E.
  - destruct (JS.isWhiteSpace c) eqn:Ec; simpl; [reflexivity|]. now rewrite Ec.
  - simpl. simpl in IH. rewrite IH. reflexivity.
Qed.

Lemma trimStart_head s :
  JS.trimStart s = EmptyString \/
  exists c r, JS.trimStart s = String c r /\ JS.isWhiteSpace c = false.
Proof.
  induction s as [|c r IH]; simpl; [now left|].
  destruct (JS.isWhiteSpace c) eqn:Ec; [exact IH|].
  right. now exists c, r.
Qed.

Lemma trim_idempotent s : JS.trim (JS.trim s) = JS.trim s.
Proof.
  unfold JS.trim.
  destruct (trimStart_head s) as [->|(c & r & -> & Hc)]; [reflexivity|].
  assert (Hs : JS.trimStart (JS.trimEnd (String c r)) = JS.trimEnd (String c r)).
  { simpl. destruct (JS.trimEnd r); simpl; rewrite Hc; simpl; now rewrite ?Hc. }
  rewrite Hs. apply trimEnd_idempotent.
Qed.

Lemma trim_mapChars f s :
  (forall c, JS.isWhiteSpace (f c) = JS.isWhiteSpace c) ->
  JS.trim (JS.mapChars f s) = JS.mapChars f (JS.trim s).
Proof.
  intros Hf. unfold JS.trim. now rewrite trimStart_mapChars, trimEnd_mapChars.
Qed.

Lemma normalize_idempotent s : normalize (normalize s) = normalize s.
Proof.
  rewrite !normalize_mapChars.
  rewrite (trim_mapChars normChar) by apply normChar_whitespace.
  rewrite trim_idempotent, mapChars_compose.
  apply mapChars_ext, normChar_idempotent.
Qed.

Lemma suffix_after_normalized s rest :
  suffixAfterFirstUnderscore (JS.mapChars normChar s ++ "_" ++ rest)%string = rest.
Proof.
  induction s as [|c r IH]; [reflexivity|].
  cbn [JS.mapChars]. rewrite append_cons. cbn [suffixAfterFirstUnderscore].
  now rewrite normChar_not_underscore.
Qed.

Lemma string_app_assoc (a b c : string) : ((a ++ b) ++ c = a ++ (b ++ c))%string.
Proof. induction a as [|x a IH]; [reflexivity|]. rewrite !append_cons. now rewrite IH. Qed.

Lemma string_app_nil_r (a : string) : (a ++ "" = a)%string.
Proof. induction a as [|x a IH]; [reflexivity|]. rewrite append_cons. now rewrite IH. Qed.

Lemma string_app_length (a b : string) :
  String.length (a ++ b) = String.length a + String.length b.
Proof. induction a as [|x a IH]; [reflexivity|]. rewrite append_cons. simpl. now rewrite IH. Qed.

Lemma filePart_generated d name extension :
  filePart (appendTimestampToFilename_at d name extension) =
    (stringDateOf d ++ extensionSuffix extension)%string.
Proof.
  rewrite filePart_suffix, appendTimestampToFilename_at_parts, normalize_mapChars.
  apply suffix_after_normalized.
Qed.

(** X1. The sort key of a generated file name is its time stamp and
    extension, whatever the name: names generated at the same date with the
    same extension compare equal. *)
Theorem generated_name_sort_key (d : Date) (extension : option string) :
  (forall name,
     filePart (appendTimestampToFilename_at d name extension) =
       (stringDateOf d ++ extensionSuffix extension)%string) /\
  (forall name1 name2,
     compareFiles (appendTimestampToFilename_at d name1 extension)
                  (appendTimestampToFilename_at d name2 extension) = 0%Z).
Proof.
  split; [intros name; apply filePart_generated|].
  intros name1 name2. unfold compareFiles.
  now rewrite !filePart_generated, String.eqb_refl.
Qed.

Lemma month_strings_ordered (m1 m2 : Z) (x y : string) :
  (0 <= m1)%Z -> (m1 < m2)%Z -> (m2 <= 11)%Z ->
  String.compare (JS.padStart (JS.toString (m1 + 1)) 2 "0" ++ x)
                 (JS.padStart (JS.toString (m2 + 1)) 2 "0" ++ y) = Lt.
Proof.
  intros H0 Hlt H11.
  assert (H1 : (m1 = 0 \/ m1 = 1 \/ m1 = 2 \/ m1 = 3 \/ m1 = 4 \/ m1 = 5 \/ m1 = 6 \/
                m1 = 7 \/ m1 = 8 \/ m1 = 9 \/ m1 = 10)%Z) by lia.
  assert (H2 : (m2 = 1 \/ m2 = 2 \/ m2 = 3 \/ m2 = 4 \/ m2 = 5 \/ m2 = 6 \/
                m2 = 7 \/ m2 = 8 \/ m2 = 9 \/ m2 = 10 \/ m2 = 11)%Z) by lia.
  repeat (destruct H1 as [H1|H1]); subst m1;
    repeat (destruct H2 as [H2|H2]); subst m2;
    try lia; reflexivity.
Qed.

Lemma compareFiles_lt f g :
  String.compare (filePart f) (filePart g) = Lt -> compareFiles f g = (-1)%Z.
Proof.
  intros H. unfold compareFiles, String.ltb. rewrite H.
  destruct (String.eqb_spec (filePart f) (filePart g)) as [Heq|]; [|reflexivity].
  rewrite Heq, string_compare_refl in H. discriminate.
Qed.

(** X2. Generated file names sort by month before year: when the month of
    the first date is earlier than the month of the second, the comparator
    of [sortFiles] puts the first name first, whatever the years, the days
    and the names. *)
Theorem generated_names_sort_by_month
    (d1 d2 : Date) (name1 name2 : string) (ext1 ext2 : option string) :
  (0 <= getMonth d1)%Z -> (getMonth d1 < getMonth d2)%Z -> (getMonth d2 <= 11)%Z ->
  compareFiles (appendTimestampToFilename_at d1 name1 ext1)
               (appendTimestampToFilename_at d2 name2 ext2) = (-1)%Z.
Proof.
  intros H0 Hlt H11. apply compareFiles_lt.
  rewrite !filePart_generated. unfold stringDateOf.
  rewrite !string_app_assoc.
  now apply month_strings_ordered.
Qed.

Lemma not_ts_when_longer s c : (s ++ String c "ts" =? "ts")%string = false.
Proof.
  apply String.eqb_neq. intros H.
  apply (f_equal String.length) in H. rewrite string_app_length in H.
  simpl in H. lia.
Qed.

Lemma replaceDotTsAtEnd_strip s c :
  JS.isLineTerminator c = false ->
  JS.replaceDotTsAtEnd (s ++ String c "ts") = s.
Proof.
  intros Hc. induction s as [|a s IH].
  - simpl. now rewrite Hc.
  - rewrite append_cons. cbn [JS.replaceDotTsAtEnd].
    now rewrite not_ts_when_longer, IH.
Qed.

Lemma replaceDotTsAtEnd_cases s :
  JS.replaceDotTsAtEnd s = s \/
  exists c, JS.isLineTerminator c = false /\
            s = (JS.replaceDotTsAtEnd s ++ String c "ts")%string.
Proof.
  induction s as [|a r IH]; [now left|].
  cbn [JS.replaceDotTsAtEnd].
  destruct (String.eqb_spec r "ts") as [->|Hr]; simpl.
  - destruct (JS.isLineTerminator a) eqn:Ea; simpl.
    + now left.
    + right. exists a. split; [exact Ea|reflexivity].
  - destruct IH as [->|(c & Hc & Hs)]; [now left|].
    right. exists c. split; [exact Hc|]. rewrite append_cons. now rewrite <- Hs.
Qed.

(** X3. The module a listed file is loaded from: the name of a generated
    [.ts] file loses exactly its extension; more generally the last three
    code units go from any name that ends in [ts] after a code unit that is
    no line terminator (the dot of the pattern matches any such unit), and
    every other name is kept whole. *)
Theorem module_name_of_listed_file :
  (forall d name,
     JS.replaceDotTsAtEnd (appendTimestampToFilename_at d name (Some "ts")) =
       appendTimestampToFilename_at d name None) /\
  (forall s c,
     JS.isLineTerminator c = false ->
     JS.replaceDotTsAtEnd (s ++ String c "ts") = s) /\
  (forall s,
     JS.replaceDotTsAtEnd s = s \/
     exists c, JS.isLineTerminator c = false /\
               s = (JS.replaceDotTsAtEnd s ++ String c "ts")%string).
Proof.
  split; [|split; [apply replaceDotTsAtEnd_strip|apply replaceDotTsAtEnd_cases]].
  intros d name. rewrite !appendTimestampToFilename_at_parts.
  cbn [extensionSuffix].
  rewrite string_app_nil_r.
  change ("." ++ "ts")%string with (String "." "ts").
  rewrite <- !string_app_assoc.
  now apply replaceDotTsAtEnd_strip.
Qed.

(** ** The order of the pending files *)

Lemma sorted_permutation_unique (l1 l2 : list string) :
  StronglySorted partLe l1 -> StronglySorted partLe l2 ->
  Permutation l1 l2 -> NoDup (map filePart l1) -> l1 = l2.
Proof.
  revert l2. induction l1 as [|x l1 IH]; intros l2 Hs1 Hs2 Hp Hnd.
  - apply Permutation_nil in Hp. now subst.
  - destruct l2 as [|y l2].
    + apply Permutation_sym, Permutation_nil in Hp. discriminate.
    + inversion Hs1 as [|? ? Hs1' Hall1]; subst.
      inversion Hs2 as [|? ? Hs2' Hall2]; subst.
      inversion Hnd as [|? ? Hnotin Hnd']; subst.
      assert (Hxy : x = y).
      { assert (Hx : In x (y :: l2)) by (eapply Permutation_in; [exact Hp|now left]).
        assert (Hy : In y (x :: l1))
          by (eapply Permutation_in; [apply Permutation_sym; exact Hp|now left]).
        destruct Hx as [Hx|Hx]; [now subst|].
        destruct Hy as [Hy|Hy]; [now subst|].
        exfalso. apply Hnotin.
        rewrite Forall_forall in Hall1, Hall2.
        assert (Hk : filePart x = filePart y)
          by (apply String.leb_antisym; [apply Hall1, Hy|apply Hall2, Hx]).
        rewrite Hk. now apply in_map. }
      subst y. f_equal.
      apply IH; auto. eapply Permutation_cons_inv; eauto.
Qed.

(** X4. The order in which the directory lists the files does not matter
    when no two of them have the same sort key: two listings of the same
    files are sorted into the same array. *)
Theorem sortFiles_ignores_listing_order (files files' : list string) :
  Permutation files files' ->
  NoDup (map filePart files) ->
  sortFiles files = sortFiles files'.
Proof.
  intros Hp Hnd.
  apply sorted_permutation_unique; try apply sortFiles_sorted.
  - rewrite <- (sortFiles_perm files), <- (sortFiles_perm files'). exact Hp.
  - eapply Permutation_NoDup; [|exact Hnd].
    apply Permutation_map, sortFiles_perm.
Qed.

(** ** More on runs *)

Arguments emit {Store} e _.
Arguments print {Store} o _.
Arguments debug {Store} line _.
Arguments liftResult {Store A} r _.
Arguments newDate {Store RepositoryModules} env _.
Arguments readDir {Store RepositoryModules} env dir _.
Arguments migrationRepo_find {Store} _.
Arguments migrationRepo_create {Store} m _.
Arguments import {Store RepositoryModules} env path _.
Arguments fsExistsSync {Store RepositoryModules} env path _.
Arguments invoke {Store RepositoryModules} called returned threw t repositories _.

Ltac since_calc :=
  unfold since, printed, appended; simpl;
  rewrite <- ?app_assoc, ?skipn_app, ?skipn_all, ?Nat.sub_diag; simpl.

Section Discipline.

Context {Store Repos : Type}.
Variable env : Env Store Repos.
Variable this : MigrationService.
Variable P : Event -> bool.

Lemma emitsOnly_ret {A} (a : A) : emitsOnly P (ret (Store := Store) a).
Proof. intros s. exists []. simpl. now rewrite app_nil_r. Qed.

Lemma emitsOnly_throw {A} e : emitsOnly P (throw (Store := Store) (A := A) e).
Proof. intros s. exists []. simpl. now rewrite app_nil_r. Qed.

Lemma emitsOnly_liftResult {A} (r : result A) : emitsOnly P (liftResult (Store := Store) r).
Proof. intros s. exists []. simpl. now rewrite app_nil_r. Qed.

Lemma emitsOnly_print o : emitsOnly P (print (Store := Store) o).
Proof. intros s. exists []. simpl. now rewrite app_nil_r. Qed.

Lemma emitsOnly_debug line : emitsOnly P (debug (Store := Store) line).
Proof. apply emitsOnly_print. Qed.

Lemma emitsOnly_newDate : emitsOnly P (newDate env).
Proof. intros s. exists []. simpl. now rewrite app_nil_r. Qed.

Lemma emitsOnly_emit e : P e = true -> emitsOnly P (emit (Store := Store) e).
Proof. intros He s. exists [e]. simpl. now rewrite He. Qed.

Lemma emitsOnly_bind {A B} (c : State Store -> result A * State Store)
    (k : A -> State Store -> result B * State Store) :
  emitsOnly P c -> (forall a, emitsOnly P (k a)) -> emitsOnly P (bind c k).
Proof.
  intros Hc Hk s. unfold bind.
  destruct (Hc s) as (tr1 & Ht1 & Hp1).
  destruct (c s) as [[a|e] s1]; simpl in *.
  - destruct (Hk a s1) as (tr2 & Ht2 & Hp2).
    exists (tr1 ++ tr2). rewrite Ht2, Ht1, <- app_assoc.
    split; [reflexivity|]. rewrite forallb_app, Hp1, Hp2. reflexivity.
  - exists tr1. auto.
Qed.

Lemma emitsOnly_readDir dir :
  P (EReadDir dir) = true -> emitsOnly P (readDir env dir).
Proof.
  intros H. unfold readDir.
  apply emitsOnly_bind; [now apply emitsOnly_emit|intros _; apply emitsOnly_liftResult].
Qed.

Lemma emitsOnly_find : P EFind = true -> emitsOnly P (migrationRepo_find (Store := Store)).
Proof.
  intros H. unfold migrationRepo_find.
  apply emitsOnly_bind; [now apply emitsOnly_emit|].
  intros _ s. exists []. simpl. now rewrite app_nil_r.
Qed.

Lemma emitsOnly_create m :
  P (ECreate m) = true -> emitsOnly P (migrationRepo_create (Store := Store) m).
Proof.
  intros H. unfold migrationRepo_create.
  apply emitsOnly_bind; [now apply emitsOnly_emit|].
  intros _ s. exists []. simpl. now rewrite app_nil_r.
Qed.

Lemma emitsOnly_import path : P (EImport path) = true -> emitsOnly P (import env path).
Proof.
  intros H. unfold import.
  apply emitsOnly_bind; [now apply emitsOnly_emit|intros _; apply emitsOnly_liftResult].
Qed.

Lemma emitsOnly_fsExistsSync path :
  P (EExistsSync path) = true -> emitsOnly P (fsExistsSync env path).
Proof.
  intros H. unfold fsExistsSync.
  apply emitsOnly_bind; [now apply emitsOnly_emit|intros _; apply emitsOnly_ret].
Qed.

Lemma emitsOnly_invoke called returned threw (t : Transform Store Repos) repos :
  P called = true -> P returned = true -> (forall e, P (threw e) = true) ->
  emitsOnly P (invoke called returned threw t repos).
Proof.
  intros Hc Hr Ht. unfold invoke.
  apply emitsOnly_bind; [now apply emitsOnly_emit|].
  intros _ s. destruct (t repos (store s)) as [[[]|e] st]; simpl.
  - exists [returned]. simpl. now rewrite Hr.
  - exists [threw e]. simpl. now rewrite Ht.
Qed.

Lemma emitsOnly_onLaterProcEvents evs :
  emitsOnly P (onLaterProcEvents (Store := Store) evs).
Proof.
  induction evs as [|ev evs IH]; simpl; [apply emitsOnly_ret|].
  apply emitsOnly_bind; [|intros _; exact IH].
  destruct ev; simpl;
    (apply emitsOnly_bind; [apply emitsOnly_debug|intros _; apply emitsOnly_ret]).
Qed.

End Discipline.

Ltac emits :=
  repeat (first
    [ assumption
    | apply emitsOnly_ret | apply emitsOnly_throw | apply emitsOnly_liftResult
    | apply emitsOnly_debug | apply emitsOnly_print | apply emitsOnly_newDate
    | apply emitsOnly_onLaterProcEvents
    | apply emitsOnly_emit; reflexivity
    | apply emitsOnly_readDir; reflexivity
    | apply emitsOnly_find; reflexivity
    | apply emitsOnly_create; reflexivity
    | apply emitsOnly_import; reflexivity
    | apply emitsOnly_fsExistsSync; reflexivity
    | apply emitsOnly_invoke; [reflexivity|reflexivity|intros; reflexivity]
    | match goal with
      | |- emitsOnly _ (match ?x with _ => _ end) => destruct x
      end
    | apply emitsOnly_bind; [|intros ?] ]).

Section Actions.

Context {Store Repos : Type}.
Variable env : Env Store Repos.
Variable this : MigrationService.

Lemma forUp_emits repos isTest l :
  emitsOnly (allowedFor (Some "up")) (forUp env this repos isTest l).
Proof. induction l as [|f l IH]; simpl; emits. Qed.

Lemma forDown_emits repos l :
  emitsOnly (allowedFor (Some "down")) (forDown env this repos l).
Proof. induction l as [|f l IH]; simpl; emits. Qed.

Lemma backupMongoDb_emits : emitsOnly (allowedFor (Some "backup")) (backupMongoDb env this).
Proof. unfold backupMongoDb, appendTimestampToFilename, onProcEvent. emits. Qed.

Lemma generateMigrationFile_emits filename :
  emitsOnly (allowedFor (Some "create")) (generateMigrationFile env this filename).
Proof. unfold generateMigrationFile, appendTimestampToFilename. emits. Qed.

Lemma executeMigration_up_emits repos token isTest :
  emitsOnly (allowedFor (Some "up")) (executeMigration env this "up" repos token isTest).
Proof.
  unfold executeMigration. simpl.
  pose proof (forUp_emits repos isTest) as Hup. emits; apply Hup.
Qed.

Lemma executeMigration_down_emits repos token isTest :
  emitsOnly (allowedFor (Some "down")) (executeMigration env this "down" repos token isTest).
Proof.
  unfold executeMigration. simpl.
  pose proof (forDown_emits repos) as Hdown. emits; apply Hdown.
Qed.

Lemma executeMigration_backup_emits repos token isTest :
  emitsOnly (allowedFor (Some "backup"))
    (executeMigration env this "backup" repos token isTest).
Proof.
  unfold executeMigration. simpl.
  pose proof backupMongoDb_emits as Hb. emits.
Qed.

Lemma migrate_emits args repos :
  emitsOnly (allowedFor (nth_error args 2)) (migrate env this args repos).
Proof.
  destruct (nth_error args 2) as [a|] eqn:H2.
  - destruct (String.eqb_spec a "create") as [->|Hc].
    { rewrite (migrate_create _ _ _ _ H2).
      pose proof generateMigrationFile_emits as Hg. emits. }
    destruct (String.eqb_spec a "up") as [->|Hu].
    { rewrite (migrate_up _ _ _ _ H2). apply executeMigration_up_emits. }
    destruct (String.eqb_spec a "down") as [->|Hd].
    { rewrite (migrate_down _ _ _ _ H2). apply executeMigration_down_emits. }
    destruct (String.eqb_spec a "backup") as [->|Hb].
    { unfold migrate. rewrite H2. simpl. apply executeMigration_backup_emits. }
    apply String.eqb_neq in Hc, Hu, Hd, Hb.
    unfold migrate. rewrite H2. unfold isString.
    destruct (JS.truthy (Some a)); rewrite ?Hc, ?Hu, ?Hd, ?Hb; simpl; emits.
  - unfold migrate. rewrite H2. simpl. emits.
Qed.

(** X5. What each action leaves alone.  The events of a call of [migrate]
    are among those of its action: [create] only looks for the directory,
    makes it and writes a file; [up] only lists the directory, reads and
    writes the ledger, imports modules and calls [up]; [down] only lists
    the directory, reads the ledger, looks for compiled files, imports
    modules and calls [down]; [backup] only lists the directory, reads the
    ledger and spawns the dump; any other action causes no event. *)
Theorem actions_keep_to_their_events
    (args : list string) (repos : option Repos) (s : State Store) :
  forallb (allowedFor (nth_error args 2))
          (since s (snd (migrate env this args repos s))) = true.
Proof.
  destruct (migrate_emits args repos s) as (tr & Ht & Hp).
  now rewrite (since_trace _ _ _ Ht).
Qed.

End Actions.

Section Forward.

Context {Store Repos : Type}.
Variable env : Env Store Repos.
Variable this : MigrationService.

Lemma executeMigration_up_nothing_pending repos token isTest files s :
  readdir env (rawMigrationDir this) = Done files ->
  notMigrated (map filename (ledger s)) files = [] ->
  executeMigration env this "up" repos token isTest s =
    (Done tt,
     {| store := store s; ledger := ledger s; ticks := ticks s;
        output := output s ++ [Debug "No migrations to execute. Database is up to date"];
        trace := trace s ++ [EReadDir (rawMigrationDir this); EFind] |}).
Proof.
  intros Hdir Hnil. unfold executeMigration. run_step.
  rewrite Hdir. simpl. rewrite Hnil. simpl. now rewrite <- app_assoc.
Qed.

Lemma upsCalled_in_sorted pre rest c tr out f :
  UpEnding env this pre rest c tr out -> In f (upsCalled tr) -> In f (pre ++ rest).
Proof.
  intros He Hin.
  destruct He as [Hrest Hc Hcalled Hthrew
                 |g post m Hrest Himp Hup Hc Hcalled Hthrew Hout
                 |g post e Hrest Himp Hc Hcalled Hthrew
                 |g post e Hrest Hhas Hc Hcalled Hthrew];
    rewrite Hcalled in Hin; subst rest; try (apply in_or_app; now left).
  apply in_app_or in Hin. apply in_or_app.
  destruct Hin as [Hin|[<-|[]]]; [now left|right; now left].
Qed.

(** X6. A forward run never calls the [up] of a file whose name is in the
    ledger: every file whose [up] it calls is in the listing of the
    directory and has no entry in the ledger the run started from. *)
Theorem forward_run_skips_ledgered_files
    (repos : option Repos) (token : string) (isTest : bool)
    (s : State Store) (f : string) :
  In f (upsCalled (since s (snd (executeMigration env this "up" repos token isTest s)))) ->
  exists files,
    readdir env (rawMigrationDir this) = Done files /\
    In f files /\
    ~ In f (map filename (ledger s)).
Proof.
  intros Hin.
  destruct (readdir env (rawMigrationDir this)) as [files|e] eqn:Hdir.
  - exists files. split; [reflexivity|].
    destruct (executeMigration env this "up" repos token isTest s) as [r s'] eqn:E.
    destruct (executeMigration_up_spec _ _ _ _ _ _ _ _ _ Hdir E)
      as (pre & rest & c & Hs & _ & _ & _ & _ & He & _).
    simpl in Hin. eapply upsCalled_in_sorted in Hin; [|exact He].
    rewrite <- Hs in Hin.
    apply (Permutation_in _ (Permutation_sym (sortFiles_perm _))) in Hin.
    now apply notMigrated_In in Hin.
  - rewrite (since_readdir_throws _ _ _ _ _ _ _ _ Hdir) in Hin.
    destruct Hin.
Qed.

(** X7. Running forward twice: after a forward run that is no test, returns
    and reports no missing [up], a second forward run over the same listing
    finds nothing pending: it prints that the database is up to date, calls
    no transform, writes nothing to the ledger and returns. *)
Theorem second_forward_run_is_idle
    (repos repos' : option Repos) (token token' : string) (isTest' : bool)
    (files : list string) (s : State Store) :
  readdir env (rawMigrationDir this) = Done files ->
  let first := executeMigration env this "up" repos token false s in
  fst first = Done tt ->
  ~ In (Debug "migration up function not found") (printed s (snd first)) ->
  let second := executeMigration env this "up" repos' token' isTest' (snd first) in
  notMigrated (map filename (ledger (snd first))) files = [] /\
  fst second = Done tt /\
  upsCalled (since (snd first) (snd second)) = [] /\
  printed (snd first) (snd second) =
    [Debug "No migrations to execute. Database is up to date"] /\
  ledger (snd second) = ledger (snd first) /\
  store (snd second) = store (snd first).
Proof.
  intros Hdir first Hdone Hno second.
  assert (Hnil : notMigrated (map filename (ledger (snd first))) files = []).
  { destruct first as [r s1] eqn:E. subst first. simpl in *.
    destruct (executeMigration_up_spec _ _ _ _ _ _ _ _ _ Hdir E)
      as (pre & rest & c & Hs & Hl & Hm & _ & _ & He & Hr).
    assert (Hrest : rest = []).
    { destruct He as [Hrest Hc Hcalled Hthrew
                     |g post m Hrest Himp Hup Hc Hcalled Hthrew Hout
                     |g post e Hrest Himp Hc Hcalled Hthrew
                     |g post e Hrest Hhas Hc Hcalled Hthrew]; subst; try discriminate;
        [reflexivity|contradiction]. }
    subst rest. rewrite app_nil_r in Hs.
    apply notMigrated_nil. intros f Hf.
    rewrite Hl, map_app, Hm. apply in_or_app.
    destruct (in_dec string_dec f (map filename (ledger s))) as [Hin|Hnin]; [now left|].
    right. rewrite <- Hs.
    apply (Permutation_in _ (sortFiles_perm _)).
    apply notMigrated_In. auto. }
  split; [exact Hnil|].
  subst second.
  rewrite (executeMigration_up_nothing_pending _ _ _ _ _ Hdir Hnil). simpl.
  repeat split; since_calc; reflexivity.
Qed.

End Forward.

Section ForwardMore.

Context {Store Repos : Type}.
Variable env : Env Store Repos.
Variable this : MigrationService.

Lemma forUp_test_vs_real repos l :
  forall s1 s2 : State Store,
    store s1 = store s2 -> output s1 = output s2 ->
    fst (forUp env this repos true l s1) = fst (forUp env this repos false l s2) /\
    store (snd (forUp env this repos true l s1)) =
      store (snd (forUp env this repos false l s2)) /\
    output (snd (forUp env this repos true l s1)) =
      output (snd (forUp env this repos false l s2)) /\
    ledger (snd (forUp env this repos true l s1)) = ledger s1 /\
    exists t1 t2,
      trace (snd (forUp env this repos true l s1)) = trace s1 ++ t1 /\
      trace (snd (forUp env this repos false l s2)) = trace s2 ++ t2 /\
      filter (fun e => negb (isCreate e)) t2 = t1.
Proof.
  induction l as [|f l IH]; intros s1 s2 Hst Hout.
  - simpl. repeat split; auto. exists [], []. now rewrite !app_nil_r.
  - simpl. run_step. rewrite <- Hst.
    destruct (importModule env _) as [m|e] eqn:Eimp; simpl.
    + destruct (up m) as [t|] eqn:Eup; simpl.
      * destruct (t repos (store s1)) as [[[]|e] st] eqn:Et; simpl.
        -- match goal with
           | |- context [forUp env this repos true l ?a] =>
               match goal with
               | |- context [forUp env this repos false l ?b] =>
                   destruct (IH a b) as (Hr & Hs & Ho & Hl & t1 & t2 & Ht1 & Ht2 & Hf);
                     [reflexivity|simpl; now rewrite Hout|]
               end
           end.
           simpl in Hl, Ht1, Ht2.
           repeat split; auto.
           exists ([EImport (modulePath this f); EUpCalled f; EUpReturned f] ++ t1),
                  ([EImport (modulePath this f); EUpCalled f; EUpReturned f;
                    ECreate {| filename := f;
                               dateMigrated := toISOString (clock env (ticks s2)) |}] ++ t2).
           rewrite Ht1, Ht2, <- !app_assoc. simpl. now rewrite Hf.
        -- rewrite Hout. repeat split; auto.
           exists [EImport (modulePath this f); EUpCalled f; EUpThrew f e],
                  [EImport (modulePath this f); EUpCalled f; EUpThrew f e].
           now rewrite <- !app_assoc.
      * rewrite Hout. repeat split; auto.
        exists [EImport (modulePath this f)], [EImport (modulePath this f)]. auto.
    + repeat split; auto.
      exists [EImport (modulePath this f)], [EImport (modulePath this f)]. auto.
Qed.

(** X8. A test run and a real run from the same state differ in the ledger
    only: they end the same way (return, or throw the same value), leave
    the same store and print the same lines, and the events of the real run
    are those of the test run with the ledger writes added; the test run
    leaves the ledger as it was. *)
Theorem test_run_differs_only_in_ledger
    (repos : option Repos) (token token' : string) (s : State Store) :
  let test := executeMigration env this "up" repos token true s in
  let real := executeMigration env this "up" repos token' false s in
  fst test = fst real /\
  store (snd test) = store (snd real) /\
  output (snd test) = output (snd real) /\
  filter (fun e => negb (isCreate e)) (since s (snd real)) = since s (snd test) /\
  ledger (snd test) = ledger s.
Proof.
  intros test real. subst test real.
  unfold executeMigration. run_step.
  destruct (readdir env (rawMigrationDir this)) as [files|e] eqn:Hdir; simpl.
  - match goal with
    | |- context [if ?b then _ else _] => destruct b
    end; simpl;
      match goal with
      | |- context [forUp env this repos true ?l ?a] =>
          destruct (forUp_test_vs_real repos l a a eq_refl eq_refl)
            as (Hr & Hs & Ho & Hl & t1 & t2 & Ht1 & Ht2 & Hf);
          destruct (forUp env this repos true l a) as [r1 a1];
          destruct (forUp env this repos false l a) as [r2 a2]
      end;
      simpl in *; subst r2;
      assert (H1 : since s a1 = [EReadDir (rawMigrationDir this); EFind] ++ t1)
        by (apply since_trace; rewrite Ht1, <- !app_assoc; reflexivity);
      assert (H2 : since s a2 = [EReadDir (rawMigrationDir this); EFind] ++ t2)
        by (apply since_trace; rewrite Ht2, <- !app_assoc; reflexivity);
      destruct r1; simpl; rewrite H1, H2; simpl; rewrite Hf; auto.
  - repeat split. since_calc. reflexivity.
Qed.

Lemma forUp_store repos isTest l :
  forall s : State Store,
  exists tr,
    trace (snd (forUp env this repos isTest l s)) = trace s ++ tr /\
    store (snd (forUp env this repos isTest l s)) =
      fold_left (applyUp env this repos) (upsCalled tr) (store s).
Proof.
  induction l as [|f l IH]; intros s.
  - exists []. simpl. now rewrite app_nil_r.
  - simpl. run_step.
    destruct (importModule env _) as [m|e] eqn:Eimp; simpl.
    + destruct (up m) as [t|] eqn:Eup; simpl.
      * destruct (t repos (store s)) as [[[]|e] st] eqn:Et; simpl.
        -- assert (Hap : applyUp env this repos (store s) f = st).
           { unfold applyUp, modulePath. now rewrite Eimp, Eup, Et. }
           destruct isTest; simpl;
             match goal with
             | |- context [forUp env this repos _ l ?a] =>
                 destruct (IH a) as (tr & Ht & Hs)
             end; simpl in Ht, Hs.
           ++ exists ([EImport (modulePath this f); EUpCalled f; EUpReturned f] ++ tr).
              rewrite Ht, Hs, <- !app_assoc. simpl. now rewrite Hap.
           ++ exists ([EImport (modulePath this f); EUpCalled f; EUpReturned f;
                       ECreate {| filename := f;
                                  dateMigrated := toISOString (clock env (ticks s)) |}] ++ tr).
              rewrite Ht, Hs, <- !app_assoc. simpl. now rewrite Hap.
        -- exists [EImport (modulePath this f); EUpCalled f; EUpThrew f e].
           rewrite <- !app_assoc. simpl. split; [reflexivity|].
           unfold applyUp, modulePath. now rewrite Eimp, Eup, Et.
      * exists [EImport (modulePath this f)]. auto.
    + exists [EImport (modulePath this f)]. auto.
Qed.

(** X9. The transforms of a forward run work on the store one after the
    other: the store after the run is the store before it put through the
    [up] of each file the run called, in the order of the calls, each [up]
    working on what the one before left (a throwing [up] included, with
    what it had changed). *)
Theorem forward_run_threads_the_store
    (repos : option Repos) (token : string) (isTest : bool) (s : State Store) :
  let run := executeMigration env this "up" repos token isTest s in
  store (snd run) =
    fold_left (applyUp env this repos) (upsCalled (since s (snd run))) (store s).
Proof.
  intros run. subst run. unfold executeMigration. run_step.
  destruct (readdir env (rawMigrationDir this)) as [files|e] eqn:Hdir; simpl.
  - match goal with
    | |- context [if ?b then _ else _] => destruct b
    end; simpl;
      match goal with
      | |- context [forUp env this repos isTest ?l ?a] =>
          destruct (forUp_store repos isTest l a) as (tr & Ht & Hs);
          destruct (forUp env this repos isTest l a) as [r1 a1]
      end;
      simpl in *;
      assert (H1 : since s a1 = [EReadDir (rawMigrationDir this); EFind] ++ tr)
        by (apply since_trace; rewrite Ht, <- !app_assoc; reflexivity);
      destruct r1; simpl; rewrite H1; simpl; exact Hs.
  - since_calc. reflexivity.
Qed.

Lemma forUp_dates repos l :
  forall s : State Store,
  exists tr,
    trace (snd (forUp env this repos false l s)) = trace s ++ tr /\
    ledger (snd (forUp env this repos false l s)) =
      ledger s ++ entriesFrom env (ticks s) (upsReturned tr).
Proof.
  induction l as [|f l IH]; intros s.
  - exists []. simpl. now rewrite !app_nil_r.
  - simpl. run_step.
    destruct (importModule env _) as [m|e] eqn:Eimp; simpl.
    + destruct (up m) as [t|] eqn:Eup; simpl.
      * destruct (t repos (store s)) as [[[]|e] st] eqn:Et; simpl.
        -- match goal with
           | |- context [forUp env this repos _ l ?a] =>
               destruct (IH a) as (tr & Ht & Hl)
           end; simpl in Ht, Hl.
           exists ([EImport (modulePath this f); EUpCalled f; EUpReturned f;
                    ECreate {| filename := f;
                               dateMigrated := toISOString (clock env (ticks s)) |}] ++ tr).
           rewrite Ht, Hl, <- !app_assoc. simpl. auto.
        -- exists [EImport (modulePath this f); EUpCalled f; EUpThrew f e].
           rewrite <- !app_assoc. simpl. now rewrite app_nil_r.
      * exists [EImport (modulePath this f)]. simpl. now rewrite app_nil_r.
    + exists [EImport (modulePath this f)]. simpl. now rewrite app_nil_r.
Qed.

(** X10. The entries a real forward run writes: the ledger after the run is
    the ledger before it followed by one entry for each file whose [up]
    returned, in the order of the calls, the entry of the [k]-th such file
    dated by the [k]-th reading of the clock in the run. *)
Theorem forward_run_ledger_entries
    (repos : option Repos) (token : string) (s : State Store) :
  let run := executeMigration env this "up" repos token false s in
  ledger (snd run) =
    ledger s ++ entriesFrom env (ticks s) (upsReturned (since s (snd run))).
Proof.
  intros run. subst run. unfold executeMigration. run_step.
  destruct (readdir env (rawMigrationDir this)) as [files|e] eqn:Hdir; simpl.
  - match goal with
    | |- context [if ?b then _ else _] => destruct b
    end; simpl;
      match goal with
      | |- context [forUp env this repos false ?l ?a] =>
          destruct (forUp_dates repos l a) as (tr & Ht & Hl);
          destruct (forUp env this repos false l a) as [r1 a1]
      end;
      simpl in *;
      assert (H1 : since s a1 = [EReadDir (rawMigrationDir this); EFind] ++ tr)
        by (apply since_trace; rewrite Ht, <- !app_assoc; reflexivity);
      destruct r1; simpl; rewrite H1; simpl; exact Hl.
  - since_calc. now rewrite app_nil_r.
Qed.

End ForwardMore.

Section Blocked.

Context {Store Repos : Type}.
Variable env : Env Store Repos.
Variable this : MigrationService.

(** A pending file that cannot give an [up] is where the forward run ends
    at the latest. *)
Lemma forward_run_reaches repos token isTest s files pre f post r s' :
  readdir env (rawMigrationDir this) = Done files ->
  sortFiles (notMigrated (map filename (ledger s)) files) = pre ++ f :: post ->
  ~ hasUp env this f ->
  executeMigration env this "up" repos token isTest s = (r, s') ->
  exists n k,
    n <= k <= List.length pre /\
    upsReturned (since s s') = firstn n pre /\
    upsCalled (since s s') = firstn k pre /\
    ledger s' = ledger s ++ created (since s s') /\
    map filename (created (since s s')) = (if isTest then [] else firstn n pre) /\
    (n = List.length pre ->
       (exists m, importModule env (modulePath this f) = Done m /\ up m = None /\
                  r = Done tt) \/
       (exists e, importModule env (modulePath this f) = Throws e /\ r = Throws e)).
Proof.
  intros Hdir Hsorted Hno E.
  destruct (executeMigration_up_spec _ _ _ _ _ _ _ _ _ Hdir E)
    as (pre' & rest & c & Hs & Hl & Hm & Hr & Hf & He & ->).
  rewrite Hsorted in Hs.
  assert (Hle : List.length pre' <= List.length pre).
  { destruct (le_lt_dec (List.length pre') (List.length pre)) as [|Hlt]; [assumption|].
    exfalso. apply Hno.
    destruct rest as [|g rest'].
    - rewrite app_nil_r in Hs. subst pre'.
      rewrite Forall_forall in Hf. apply Hf. apply in_or_app. right. now left.
    - symmetry in Hs. apply app_eq_nth in Hs; [|lia].
      rewrite Forall_forall in Hf. now apply Hf. }
  assert (Hpre' : pre' = firstn (List.length pre') pre).
  { symmetry in Hs. eapply app_eq_firstn; eauto. }
  assert (Hsame : forall g post', rest = g :: post' ->
                    List.length pre' = List.length pre -> g = f).
  { intros g post' -> Heq. symmetry in Hs. now apply app_eq_same_length in Hs. }
  destruct He as [Hrest Hc Hcalled Hthrew
                 |g post' m' Hrest Himp' Hup' Hc Hcalled Hthrew Hout
                 |g post' e' Hrest Himp' Hc Hcalled Hthrew
                 |g post' e' Hrest Hhas Hc Hcalled Hthrew]; subst c.
  - exfalso. subst rest. rewrite app_nil_r in Hs. subst pre'.
    rewrite length_app in Hle. simpl in Hle. lia.
  - exists (List.length pre'), (List.length pre').
    rewrite Hr, Hcalled, <- Hpre'.
    repeat split; auto; try lia.
    intros Heq. left. rewrite <- (Hsame _ _ Hrest Heq). eauto.
  - exists (List.length pre'), (List.length pre').
    rewrite Hr, Hcalled, <- Hpre'.
    repeat split; auto; try lia.
    intros Heq. right. rewrite <- (Hsame _ _ Hrest Heq). eauto.
  - assert (Hlt : List.length pre' < List.length pre).
    { destruct (Nat.eq_dec (List.length pre') (List.length pre)) as [Heq|]; [|lia].
      exfalso. apply Hno. now rewrite <- (Hsame _ _ Hrest Heq). }
    exists (List.length pre'), (S (List.length pre')).
    rewrite Hr, Hcalled, <- Hpre'.
    assert (Hcall : pre' ++ [g] = firstn (S (List.length pre')) pre).
    { replace (S (List.length pre')) with (List.length (pre' ++ [g]))
        by (rewrite length_app; simpl; lia).
      subst rest.
      apply (app_eq_firstn _ post' _ (f :: post)).
      - rewrite <- app_assoc. simpl. now symmetry.
      - rewrite length_app. simpl. lia. }
    repeat split; auto; try lia.
Qed.

(** X11. A pending file whose compiled module cannot be imported stops the
    forward run with the error of the import: with the pending files,
    sorted, being [pre ++ f :: post], the transforms called and the ledger
    entries written are those of an initial part of [pre], and when the
    files of [pre] all completed the run throws what the import threw.  The
    run returns only if a file of [pre] stopped it before. *)
Theorem unimportable_file_stops_forward_run
    (repos : option Repos) (token : string) (isTest : bool)
    (s : State Store) (files pre post : list string) (f : string) (e : Error) :
  readdir env (rawMigrationDir this) = Done files ->
  sortFiles (notMigrated (map filename (ledger s)) files) = pre ++ f :: post ->
  importModule env (modulePath this f) = Throws e ->
  let run := executeMigration env this "up" repos token isTest s in
  exists n k,
    n <= k <= List.length pre /\
    upsReturned (since s (snd run)) = firstn n pre /\
    upsCalled (since s (snd run)) = firstn k pre /\
    ledger (snd run) = ledger s ++ created (since s (snd run)) /\
    map filename (created (since s (snd run))) = (if isTest then [] else firstn n pre) /\
    (n = List.length pre -> fst run = Throws e) /\
    (fst run = Done tt -> n < List.length pre).
Proof.
  intros Hdir Hsorted Himp run.
  destruct run as [r s'] eqn:E. subst run. simpl.
  assert (Hno : ~ hasUp env this f).
  { intros (m & t & Hi & _). congruence. }
  destruct (forward_run_reaches _ _ _ _ _ _ _ _ _ _ Hdir Hsorted Hno E)
    as (n & k & Hnk & Hr & Hc & Hl & Hm & Hend).
  exists n, k.
  assert (Hthrow : n = List.length pre -> r = Throws e).
  { intros Hn. destruct (Hend Hn) as [(m & Hi & _)|(e' & Hi & ->)]; congruence. }
  repeat split; auto; try lia.
  intros ->.
  destruct (Nat.eq_dec n (List.length pre)) as [Hn|]; [|lia].
  apply Hthrow in Hn. discriminate.
Qed.

End Blocked.

Section Reverse.

Context {Store Repos : Type}.
Variable env : Env Store Repos.
Variable this : MigrationService.

Lemma in_downsThrew f e tr : In (EDownThrew f e) tr -> In (f, e) (downsThrew tr).
Proof.
  intros Hin. unfold downsThrew. apply in_flat_map.
  exists (EDownThrew f e). split; [exact Hin|now left].
Qed.

Lemma forDown_called_hasDown repos l :
  forall s : State Store,
  exists tr,
    trace (snd (forDown env this repos l s)) = trace s ++ tr /\
    Forall (hasDown env this) (downsCalled tr).
Proof.
  induction l as [|f l IH]; intros s.
  - exists []. simpl. rewrite app_nil_r. auto.
  - simpl. run_step.
    change (builtMigrationDir this ++ "/" ++ JS.replaceDotTsAtEnd f)%string
      with (modulePath this f).
    change (modulePath this f ++ ".js")%string with (jsPath this f).
    destruct (existsSync env (jsPath this f)) eqn:Ejs; simpl.
    + destruct (importModule env _) as [m|e] eqn:Eimp; simpl.
      * destruct (down m) as [t|] eqn:Edown; simpl.
        -- assert (Hhas : hasDown env this f) by (split; [exact Ejs|exists m, t; auto]).
           destruct (t repos (store s)) as [[[]|e] st] eqn:Et; simpl.
           ++ match goal with
              | |- context [forDown env this repos l ?a] =>
                  destruct (IH a) as (tr & Ht & Hf)
              end; simpl in Ht.
              exists ([EExistsSync (jsPath this f); EImport (modulePath this f);
                       EDownCalled f; EDownReturned f] ++ tr).
              rewrite Ht, <- !app_assoc. simpl. auto.
           ++ exists [EExistsSync (jsPath this f); EImport (modulePath this f);
                      EDownCalled f; EDownThrew f e].
              rewrite <- !app_assoc. simpl. auto.
        -- exists [EExistsSync (jsPath this f); EImport (modulePath this f)].
           rewrite <- !app_assoc. simpl. auto.
      * exists [EExistsSync (jsPath this f); EImport (modulePath this f)].
        rewrite <- !app_assoc. simpl. auto.
    + match goal with
      | |- context [forDown env this repos l ?a] =>
          destruct (IH a) as (tr & Ht & Hf)
      end; simpl in Ht.
      exists ([EExistsSync (jsPath this f)] ++ tr).
      rewrite Ht, <- !app_assoc. simpl. auto.
Qed.

Lemma reverse_run_called_hasDown repos token isTest s :
  Forall (hasDown env this)
    (downsCalled (since s (snd (executeMigration env this "down" repos token isTest s)))).
Proof.
  unfold executeMigration. run_step.
  destruct (readdir env (rawMigrationDir this)) as [files|e] eqn:Hdir; simpl.
  - destruct (token =? "")%string; simpl; [since_calc; constructor|].
    destruct (filter _ _) as [|f0 sel] eqn:Esel; [simpl; since_calc; constructor|].
    cbv beta iota.
    match goal with
    | |- context [forDown env this repos ?l ?a] =>
        destruct (forDown_called_hasDown repos l a) as (tr & Ht & Hf);
        destruct (forDown env this repos l a) as [r1 a1]
    end.
    simpl in Ht.
    assert (H1 : since s a1 = [EReadDir (rawMigrationDir this); EFind] ++ tr)
      by (apply since_trace; rewrite Ht, <- !app_assoc; reflexivity).
    destruct r1 as [[]|e]; simpl; rewrite ?H1; simpl; try exact Hf.
    assert (H2 : forall o, since s
                   {| store := store a1; ledger := ledger a1; ticks := ticks a1;
                      output := o; trace := trace a1 |} = since s a1) by reflexivity.
    rewrite H2, H1. exact Hf.
  - since_calc. constructor.
Qed.

(** X12. When the [down] of a file throws during a reverse run, the run
    throws the same value.  The selected files are then [pre ++ f :: post]
    with [f] that file: the files reverted are those of [pre] that have a
    compiled counterpart, no file of [post] is tried, and the ledger is as
    it was, the entries of the reverted files included. *)
Theorem reverse_transform_failure
    (repos : option Repos) (T : string) (isTest : bool)
    (s : State Store) (f : string) (e : Error) :
  let run := executeMigration env this "down" repos T isTest s in
  In (EDownThrew f e) (since s (snd run)) ->
  fst run = Throws e /\
  ledger (snd run) = ledger s /\
  exists pre post,
    filter (fun file => JS.includes file T) (map filename (ledger s)) = pre ++ f :: post /\
    downsReturned (since s (snd run)) = filter (compiled env this) pre /\
    downsCalled (since s (snd run)) = filter (compiled env this) pre ++ [f].
Proof.
  intros run Hin.
  destruct (readdir env (rawMigrationDir this)) as [files|e0] eqn:Hdir.
  - destruct (String.eqb_spec T "") as [->|HT].
    + exfalso. revert Hin. subst run. unfold executeMigration. run_step.
      rewrite Hdir. simpl. since_calc. intros [H|[H|[]]]; discriminate.
    + destruct run as [r s'] eqn:E. subst run. simpl in *.
      destruct (executeMigration_down_spec _ _ _ _ _ _ _ _ _ HT Hdir E)
        as (pre & rest & c & tr & out & tail & Hsel & Hsince & _ & Hled & _ & _ & Hr & He & ->).
      rewrite Hsince in *. simpl in Hin.
      destruct Hin as [H|[H|Hin]]; try discriminate.
      apply in_downsThrew in Hin.
      destruct He as [Hrest Hc Hprobed Hcalled Hthrew
                     |g post m Hrest Hcomp Himp Hdown Hc Hprobed Hcalled Hthrew Hout
                     |g post e' Hrest Hcomp Himp Hc Hprobed Hcalled Hthrew
                     |g post e' Hrest Hcomp Hc Hprobed Hcalled Hthrew];
        rewrite Hthrew in Hin; simpl in Hin; try contradiction.
      destruct Hin as [Heq|[]]. inversion Heq; subst.
      split; [reflexivity|]. split; [exact Hled|].
      exists pre, post. simpl. auto.
  - exfalso. subst run.
    rewrite (since_readdir_throws _ _ _ _ _ _ _ _ Hdir) in Hin.
    destruct Hin as [Hin|[]]. discriminate.
Qed.

(** X13. A selected file whose compiled module exports no [down] stops the
    reverse run: with the selected files being [pre ++ f :: post], the
    files reverted are among those of [pre], and when the run is done with
    the files of [pre] (each reverted, or skipped for want of a compiled
    file) it prints that the function was not found and returns, with
    neither [f] nor a file of [post] reverted; it throws only when a file
    of [pre] failed.  The ledger is as it was. *)
Theorem missing_down_aborts_reverse_run
    (repos : option Repos) (T : string) (isTest : bool)
    (s : State Store) (files pre post : list string) (f : string)
    (m : MigrationModule Store Repos) :
  T <> "" ->
  readdir env (rawMigrationDir this) = Done files ->
  filter (fun file => JS.includes file T) (map filename (ledger s)) = pre ++ f :: post ->
  compiled env this f = true ->
  importModule env (modulePath this f) = Done m ->
  down m = None ->
  let run := executeMigration env this "down" repos T isTest s in
  ledger (snd run) = ledger s /\
  exists n,
    n <= List.length pre /\
    downsReturned (since s (snd run)) = filter (compiled env this) (firstn n pre) /\
    (n = List.length pre ->
       fst run = Done tt /\
       downsCalled (since s (snd run)) = filter (compiled env this) pre /\
       In (Debug "migration down function not found") (printed s (snd run))) /\
    (forall e, fst run = Throws e -> n < List.length pre).
Proof.
  intros HT Hdir Hsel Hcomp Himp Hdown run.
  pose proof (reverse_run_called_hasDown repos T isTest s) as Hcalled.
  fold run in Hcalled.
  destruct run as [r s'] eqn:E. subst run. simpl in *.
  destruct (executeMigration_down_spec _ _ _ _ _ _ _ _ _ HT Hdir E)
    as (pre' & rest & c & tr & out & tail & Hs & Hsince & Hprinted & Hled & _ & _ & Hr
        & He & ->).
  rewrite Hsel in Hs. rewrite Hsince in *. simpl in Hcalled. simpl.
  split; [exact Hled|].
  assert (Hno : ~ hasDown env this f).
  { intros (_ & m' & t & Hi & Hd). congruence. }
  assert (Hnotin : ~ In f (filter (compiled env this) pre')).
  { intros Hin. apply Hno. rewrite Forall_forall in Hcalled. apply Hcalled.
    destruct He as [_ _ _ Hc _|g post' m' _ _ _ _ _ _ Hc _ _
                   |g post' e' _ _ _ _ _ Hc _|g post' e' _ _ _ _ Hc _];
      rewrite Hc; try assumption. apply in_or_app. now left. }
  assert (Hle : List.length pre' <= List.length pre).
  { destruct (le_lt_dec (List.length pre') (List.length pre)) as [|Hlt]; [assumption|].
    exfalso. apply Hnotin. apply filter_In. split; [|exact Hcomp].
    destruct rest as [|g rest'].
    - rewrite app_nil_r in Hs. subst pre'. apply in_or_app. right. now left.
    - symmetry in Hs. now apply app_eq_nth in Hs; [|lia]. }
  assert (Hpre' : pre' = firstn (List.length pre') pre).
  { symmetry in Hs. eapply app_eq_firstn; eauto. }
  assert (Hsame : forall g post', rest = g :: post' ->
                    List.length pre' = List.length pre -> g = f /\ pre' = pre).
  { intros g post' -> Heq. split.
    - symmetry in Hs. now apply app_eq_same_length in Hs.
    - rewrite Hpre', Heq. apply firstn_all. }
  exists (List.length pre'). split; [exact Hle|].
  split; [now rewrite Hr, <- Hpre'|].
  destruct He as [Hrest Hc Hprobed Hcalled' Hthrew
                 |g post' m' Hrest Hcomp' Himp' Hdown' Hc Hprobed Hcalled' Hthrew Hout
                 |g post' e' Hrest Hcomp' Himp' Hc Hprobed Hcalled' Hthrew
                 |g post' e' Hrest Hcomp' Hc Hprobed Hcalled' Hthrew]; subst c.
  - exfalso. subst rest. rewrite app_nil_r in Hs. subst pre'.
    rewrite length_app in Hle. simpl in Hle. lia.
  - split; [|intros e' He'; discriminate].
    intros Heq. destruct (Hsame _ _ Hrest Heq) as [-> ->].
    split; [reflexivity|]. split; [exact Hcalled'|].
    rewrite Hprinted. apply in_or_app. now left.
  - assert (Hlt : List.length pre' < List.length pre).
    { destruct (Nat.eq_dec (List.length pre') (List.length pre)) as [Heq|]; [|lia].
      exfalso. destruct (Hsame _ _ Hrest Heq) as [-> _]. congruence. }
    split; [intros Heq; lia|intros; exact Hlt].
  - assert (Hlt : List.length pre' < List.length pre).
    { destruct (Nat.eq_dec (List.length pre') (List.length pre)) as [Heq|]; [|lia].
      exfalso. destruct (Hsame _ _ Hrest Heq) as [-> _].
      apply Hno. rewrite Forall_forall in Hcalled. apply Hcalled.
      rewrite Hcalled'. apply in_or_app. right. now left. }
    split; [intros Heq; lia|intros; exact Hlt].
Qed.

(** X14. A reverse run looks neither at what the directory lists nor at the
    test flag: in two worlds that differ in the listing only, with any two
    values of the flag, it is the same computation. *)
Theorem reverse_run_ignores_listing_and_flag
    (repos : option Repos) (T : string) (isTest isTest' : bool)
    (files files' : list string) (s : State Store) :
  executeMigration (withListing env files) this "down" repos T isTest s =
  executeMigration (withListing env files') this "down" repos T isTest' s.
Proof. reflexivity. Qed.

End Reverse.

#[local] Arguments appendTimestampToFilename_at : simpl never.

Section OtherActions.

Context {Store Repos : Type}.
Variable env : Env Store Repos.
Variable this : MigrationService.

(** X15. The action [backup] lists the migrations directory and reads the
    ledger before it dumps the database: when the directory cannot be
    listed the call throws that error and no dump is started; otherwise one
    dump is spawned and the call ends as the dump's first event says,
    throwing on [error] and returning on [close].  Ledger and store are as
    they were. *)
Theorem backup_action_lists_directory_first
    (args : list string) (repos : option Repos) (s : State Store) :
  nth_error args 2 = Some "backup" ->
  let run := migrate env this args repos s in
  let command :=
    backupCommand env this
      (appendTimestampToFilename_at (clock env (ticks s)) "db" None) in
  ledger (snd run) = ledger s /\
  store (snd run) = store s /\
  match readdir env (rawMigrationDir this) with
  | Throws e =>
      fst run = Throws e /\
      since s (snd run) = [EReadDir (rawMigrationDir this)]
  | Done _ =>
      fst run =
        match fst (spawn env "sh" ["-c"; command]) with
        | ProcError e => Throws e
        | ProcClose _ _ => Done tt
        end /\
      since s (snd run) =
        [EReadDir (rawMigrationDir this); EFind; ESpawn "sh" ["-c"; command]]
  end.
Proof.
  intros H2 run command. subst run.
  assert (Hm : migrate env this args repos =
               executeMigration env this "backup" repos "" false)
    by (unfold migrate; now rewrite H2).
  rewrite Hm. clear Hm.
  destruct (readdir env (rawMigrationDir this)) as [files|e] eqn:Hdir.
  - unfold executeMigration. run_step. rewrite Hdir. simpl.
    match goal with
    | |- context [backupMongoDb env this ?s0] =>
        pose proof (backupMongoDb_spec env this s0) as Hb;
        destruct (backupMongoDb env this s0) as [r s1]
    end.
    simpl in Hb. destruct Hb as (Hr & Ht & Hl & Hst).
    rewrite <- !app_assoc in Ht. apply (since_trace s) in Ht.
    fold command in Hr, Ht. subst r.
    destruct (fst (spawn env "sh" ["-c"; command])); simpl; auto.
  - rewrite (executeMigration_readdir_throws _ _ _ _ _ _ _ _ Hdir). simpl.
    repeat split. since_calc. reflexivity.
Qed.

(** X16. [create] with a name writes one file: the template, at the
    migrations directory, under the name made of the normalized name (once
    normalized, though the code normalizes twice), the time stamp of the
    call and [.ts].  The directory is looked for first and made when it is
    not there; when it cannot be made nothing is written and the call
    throws.  The call ends as the write ends.  Ledger and store are as
    they were. *)
Theorem create_writes_one_file
    (args : list string) (repos : option Repos) (s : State Store) (name : string) :
  nth_error args 2 = Some "create" ->
  nth_error args 3 = Some name ->
  name <> "" ->
  let run := migrate env this args repos s in
  let dir := rawMigrationDir this in
  let path :=
    (dir ++ "/" ++
     appendTimestampToFilename_at (clock env (ticks s)) name (Some "ts"))%string in
  ledger (snd run) = ledger s /\
  store (snd run) = store s /\
  (if existsSync env dir
   then since s (snd run) = [EExistsSync dir; EWriteFile path (migrationContent this)] /\
        fst run = writeFile env path (migrationContent this)
   else match mkdirSync env dir with
        | Done _ =>
            since s (snd run) =
              [EExistsSync dir; EMkdir dir; EWriteFile path (migrationContent this)] /\
            fst run = writeFile env path (migrationContent this)
        | Throws e =>
            since s (snd run) = [EExistsSync dir; EMkdir dir] /\
            fst run = Throws e
        end).
Proof.
  intros H2 H3 Hname run dir path. subst run dir.
  rewrite (migrate_create _ _ _ _ H2), H3. simpl.
  apply String.eqb_neq in Hname. rewrite Hname. simpl.
  assert (Hpath : (rawMigrationDir this ++ "/" ++
                   appendTimestampToFilename_at (clock env (ticks s))
                     (JS.replaceUnderscores (JS.toLowerCase (JS.trim name))) (Some "ts"))%string
                  = path).
  { subst path. rewrite !appendTimestampToFilename_at_parts.
    change (JS.replaceUnderscores (JS.toLowerCase (JS.trim name))) with (normalize name).
    now rewrite normalize_idempotent. }
  unfold generateMigrationFile. run_step.
  destruct (existsSync env (rawMigrationDir this)); simpl.
  - rewrite Hpath.
    destruct (writeFile env path (migrationContent this)) as [[]|e]; simpl;
      repeat split; since_calc; reflexivity.
  - destruct (mkdirSync env (rawMigrationDir this)) as [[]|e]; simpl.
    + rewrite Hpath.
      destruct (writeFile env path (migrationContent this)) as [[]|e]; simpl;
        repeat split; since_calc; reflexivity.
    + repeat split; since_calc; reflexivity.
Qed.

(** X17. An action that is none of [create], [up], [down] and [backup], or
    no action at all, makes [migrate] print its three lines of usage and
    return; nothing else changes. *)
Theorem unknown_action_prints_usage
    (args : list string) (repos : option Repos) (s : State Store) :
  nth_error args 2 <> Some "create" ->
  nth_error args 2 <> Some "up" ->
  nth_error args 2 <> Some "down" ->
  nth_error args 2 <> Some "backup" ->
  migrate env this args repos s =
    (Done tt,
     {| store := store s; ledger := ledger s; ticks := ticks s;
        output := output s ++
          [Debug "Command <create> Example: npm run migrate create <migration-name>";
           Debug "Command <up> Example: npm run migrate up";
           Debug "Command <down> Example: npm run migrate down"];
        trace := trace s |}).
Proof.
  intros Hc Hu Hd Hb. unfold migrate.
  assert (Hact : forall x, x <> "" ->
            nth_error args 2 <> Some x ->
            isString (if JS.truthy (nth_error args 2) then nth_error args 2 else None) x
              = false).
  { intros x Hx Hn. destruct (nth_error args 2) as [a|]; simpl; [|reflexivity].
    destruct (String.eqb_spec a "") as [->|]; simpl.
    - reflexivity.
    - apply String.eqb_neq. congruence. }
  rewrite !Hact by (assumption || discriminate).
  run_step. now rewrite <- !app_assoc.
Qed.

End OtherActions.

(** ** getRepositories *)

Section Repositories.

Context {Class Handle : Type}.
Variable app_getRepository : Class -> result Handle.

Lemma objSet_fresh {V} (o : JSObject V) k v :
  objGet o k = None -> objSet o k v = o ++ [(k, v)].
Proof.
  induction o as [|[k' x] o IH]; simpl; [reflexivity|].
  destruct (k' =? k)%string; [discriminate|]. intros H. now rewrite IH.
Qed.

Lemma objGet_none {V} (o : JSObject V) k :
  ~ In k (map fst o) -> objGet o k = None.
Proof.
  induction o as [|[k' x] o IH]; simpl; [reflexivity|].
  intros Hn. destruct (String.eqb_spec k' k) as [->|]; [exfalso; auto|].
  apply IH. auto.
Qed.


Lemma getRepositories_from_resolved pre rest o0 req0 :
  (forall k c, In (k, c) pre -> exists h, app_getRepository c = Done h) ->
  NoDup (map fst o0 ++ map fst pre) ->
  getRepositories_from app_getRepository (pre ++ rest) o0 req0 =
    getRepositories_from app_getRepository rest
      (o0 ++ flat_map (resolvedEntry app_getRepository) pre) (req0 ++ map snd pre) /\
  map fst (o0 ++ flat_map (resolvedEntry app_getRepository) pre) = map fst o0 ++ map fst pre.
Proof.
  revert o0 req0. induction pre as [|[k c] pre IH]; intros o0 req0 Hres Hnd.
  - simpl. now rewrite !app_nil_r.
  - destruct (Hres k c (or_introl eq_refl)) as (h & Hh).
    assert (Hfresh : objGet o0 k = None).
    { apply objGet_none. intros Hin. simpl in Hnd.
      apply NoDup_remove_2 in Hnd. apply Hnd. apply in_or_app. now left. }
    assert (He : resolvedEntry app_getRepository (k, c) = [(k, h)])
      by (unfold resolvedEntry; simpl; now rewrite Hh).
    simpl. rewrite He, Hh, (objSet_fresh _ _ _ Hfresh).
    destruct (IH (o0 ++ [(k, h)]) (req0 ++ [c])) as [Heq Hkeys].
    + intros k' c' Hin. apply (Hres k' c'). now right.
    + rewrite map_app, <- app_assoc. exact Hnd.
    + rewrite Heq, <- !app_assoc. simpl. split; [reflexivity|].
      rewrite <- !app_assoc in Hkeys. simpl in Hkeys.
      rewrite Hkeys, map_app, <- app_assoc. reflexivity.
Qed.


(** X19. When the application rejects a class, [getRepositories] rejects
    with the same reason and asks for no later class: the classes requested
    are those of the entries before it and that class. *)
Theorem getRepositories_stops_at_first_rejection
    (pre post : list (string * Class)) (k : string) (c : Class) (e : Error) :
  NoDup (map fst pre) ->
  (forall k' c', In (k', c') pre -> exists h, app_getRepository c' = Done h) ->
  app_getRepository c = Throws e ->
  getRepositories app_getRepository (pre ++ (k, c) :: post) =
    (Throws e, map snd pre ++ [c]).
Proof.
  intros Hnd Hres Hc.
  destruct (getRepositories_from_resolved pre ((k, c) :: post) [] [] Hres Hnd)
    as [Heq _].
  unfold getRepositories. rewrite Heq. simpl. now rewrite Hc.
Qed.

End Repositories.

(** ** File names of one day *)

Lemma compare_app_same (u x y : string) :
  String.compare (u ++ x) (u ++ y) = String.compare x y.
Proof.
  induction u as [|a u IH]; [reflexivity|].
  rewrite !append_cons. simpl. now rewrite ascii_compare_refl.
Qed.

Lemma compare_app_lt (u v x y : string) :
  String.length u = String.length v ->
  String.compare u v = Lt ->
  String.compare (u ++ x) (v ++ y) = Lt.
Proof.
  revert v. induction u as [|a u IH]; intros [|b v] Hlen Hlt; simpl in Hlen, Hlt;
    try discriminate.
  rewrite !append_cons. simpl.
  destruct (Ascii.compare a b); try congruence.
  apply IH; [lia|exact Hlt].
Qed.

Lemma two_digit_table :
  forallb
    (fun a =>
       (String.length (JS.padStart (JS.toString (Z.of_nat a)) 2 "0") =? 2)%nat &&
       forallb
         (fun b =>
            implb (a <? b)%nat
              (match String.compare (JS.padStart (JS.toString (Z.of_nat a)) 2 "0")
                                    (JS.padStart (JS.toString (Z.of_nat b)) 2 "0") with
               | Lt => true
               | _ => false
               end))
         (seq 0 100))
    (seq 0 100) = true.
Proof. vm_compute. reflexivity. Qed.

Lemma two_digits (a b : Z) :
  (0 <= a)%Z -> (a < b)%Z -> (b <= 99)%Z ->
  String.length (JS.padStart (JS.toString a) 2 "0") = 2 /\
  String.length (JS.padStart (JS.toString b) 2 "0") = 2 /\
  String.compare (JS.padStart (JS.toString a) 2 "0")
                 (JS.padStart (JS.toString b) 2 "0") = Lt.
Proof.
  intros H0 Hlt H99.
  pose proof two_digit_table as Htab. rewrite forallb_forall in Htab.
  assert (Hin : forall n, (0 <= n <= 99)%Z -> In (Z.to_nat n) (seq 0 100))
    by (intros n Hn; apply in_seq; lia).
  pose proof (Htab _ (Hin a ltac:(lia))) as Ha.
  pose proof (Htab _ (Hin b ltac:(lia))) as Hb.
  rewrite !Z2Nat.id in Ha, Hb by lia.
  apply andb_prop in Ha, Hb. destruct Ha as [Hla Hrow], Hb as [Hlb _].
  apply Nat.eqb_eq in Hla, Hlb.
  rewrite forallb_forall in Hrow.
  pose proof (Hrow _ (Hin b ltac:(lia))) as Hab.
  rewrite Z2Nat.id in Hab by lia.
  assert (Hnat : (Z.to_nat a <? Z.to_nat b)%nat = true) by (apply Nat.ltb_lt; lia).
  rewrite Hnat in Hab. simpl in Hab.
  destruct (String.compare _ _); try discriminate. auto.
Qed.

Lemma two_digits_first (a b : Z) (x y : string) :
  (0 <= a)%Z -> (a < b)%Z -> (b <= 99)%Z ->
  String.compare (JS.padStart (JS.toString a) 2 "0" ++ x)
                 (JS.padStart (JS.toString b) 2 "0" ++ y) = Lt.
Proof.
  intros H0 Hlt H99. destruct (two_digits a b H0 Hlt H99) as (Hla & Hlb & Hc).
  apply compare_app_lt; [congruence|exact Hc].
Qed.

(** X20. Within one day generated file names sort by the time of day: for
    two dates with the same month, day and year, and hours, minutes and
    seconds in range, the comparator of [sortFiles] puts first the name
    generated at the earlier time, whatever the names and extensions. *)
Theorem generated_names_of_a_day_sort_by_time
    (d1 d2 : Date) (name1 name2 : string) (ext1 ext2 : option string) :
  getMonth d1 = getMonth d2 -> getDate d1 = getDate d2 ->
  getFullYear d1 = getFullYear d2 ->
  (0 <= getHours d1 <= 23)%Z -> (0 <= getHours d2 <= 23)%Z ->
  (0 <= getMinutes d1 <= 59)%Z -> (0 <= getMinutes d2 <= 59)%Z ->
  (0 <= getSeconds d1 <= 59)%Z -> (0 <= getSeconds d2 <= 59)%Z ->
  (getHours d1 < getHours d2 \/
   getHours d1 = getHours d2 /\
   (getMinutes d1 < getMinutes d2 \/
    getMinutes d1 = getMinutes d2 /\ getSeconds d1 < getSeconds d2))%Z ->
  compareFiles (appendTimestampToFilename_at d1 name1 ext1)
               (appendTimestampToFilename_at d2 name2 ext2) = (-1)%Z.
Proof.
  intros Hm Hd Hy Hh1 Hh2 Hm1 Hm2 Hs1 Hs2 Hlex.
  apply compareFiles_lt. rewrite !filePart_generated. unfold stringDateOf.
  rewrite Hm, Hd, Hy, !string_app_assoc.
  do 6 rewrite compare_app_same.
  destruct Hlex as [Hlt|[Heq [Hlt|[Heq' Hlt]]]].
  - apply two_digits_first; lia.
  - rewrite Heq, compare_app_same. apply two_digits_first; lia.
  - rewrite Heq, Heq', !compare_app_same. apply two_digits_first; lia.
Qed.

(** ** More theorems on the example world *)

Lemma generated_names_sort_by_month_witness :
  compareFiles
    (appendTimestampToFilename_at MoreExamples.january_2024 "second" (Some "ts"))
    (appendTimestampToFilename_at MoreExamples.december_2023 "first" (Some "ts"))
  = (-1)%Z.
Proof. apply generated_names_sort_by_month; simpl; lia. Defined.

Lemma generated_names_of_a_day_sort_by_time_witness :
  compareFiles
    (appendTimestampToFilename_at MoreExamples.january_2024 "first" (Some "ts"))
    (appendTimestampToFilename_at MoreExamples.january_2024_later "second" (Some "ts"))
  = (-1)%Z.
Proof. apply generated_names_of_a_day_sort_by_time; simpl; lia. Defined.

Lemma sortFiles_ignores_listing_order_witness :
  sortFiles [Example.fileA; Example.fileB] = sortFiles [Example.fileB; Example.fileA].
Proof.
  apply sortFiles_ignores_listing_order; [apply perm_swap|].
  vm_compute. constructor; [intros [H|[]]; discriminate|].
  constructor; [intros []|constructor].
Defined.

Lemma forward_run_skips_ledgered_files_witness :
  In Example.fileA
     (upsCalled
        (since (Example.start [Example.applied Example.fileC])
           (snd (executeMigration Example.twoListed Example.service "up" None "" false
                   (Example.start [Example.applied Example.fileC]))))) /\
  exists files,
    readdir Example.twoListed (rawMigrationDir Example.service) = Done files /\
    In Example.fileA files /\
    ~ In Example.fileA (map filename (ledger (Example.start [Example.applied Example.fileC]))).
Proof.
  assert (Hin : In Example.fileA
                  (upsCalled
                     (since (Example.start [Example.applied Example.fileC])
                        (snd (executeMigration Example.twoListed Example.service "up" None ""
                                false (Example.start [Example.applied Example.fileC]))))))
    by (vm_compute; left; reflexivity).
  split; [exact Hin|].
  exact (forward_run_skips_ledgered_files Example.twoListed Example.service None "" false
           (Example.start [Example.applied Example.fileC]) Example.fileA Hin).
Defined.

Lemma second_forward_run_is_idle_witness :
  fst (executeMigration (MoreExamples.world [Example.fileA]) Example.service "up" None ""
         false (Example.start [])) = Done tt /\
  fst (executeMigration (MoreExamples.world [Example.fileA]) Example.service "up" None ""
         false
         (snd (executeMigration (MoreExamples.world [Example.fileA]) Example.service "up"
                 None "" false (Example.start [])))) = Done tt.
Proof.
  split; [reflexivity|].
  pose proof (second_forward_run_is_idle (MoreExamples.world [Example.fileA])
                Example.service None None "" "" false [Example.fileA] (Example.start [])
                eq_refl) as H.
  cbv zeta in H.
  destruct H as (_ & H & _); [reflexivity| |exact H].
  vm_compute. intros [H|[H|[]]]; discriminate.
Defined.

Lemma unimportable_file_stops_forward_run_witness :
  importModule (MoreExamples.world [Example.fileA; MoreExamples.fileE])
    (modulePath Example.service MoreExamples.fileE) = Throws (MkError "Cannot find module") /\
  exists n k,
    n <= k <= 1 /\
    upsCalled
      (since (Example.start [])
         (snd (executeMigration (MoreExamples.world [Example.fileA; MoreExamples.fileE])
                 Example.service "up" None "" false (Example.start []))))
      = firstn k [Example.fileA].
Proof.
  split; [reflexivity|].
  destruct (unimportable_file_stops_forward_run
              (MoreExamples.world [Example.fileA; MoreExamples.fileE]) Example.service
              None "" false (Example.start [])
              [Example.fileA; MoreExamples.fileE] [Example.fileA] [] MoreExamples.fileE
              (MkError "Cannot find module") eq_refl eq_refl eq_refl)
    as (n & k & Hnk & _ & Hcalled & _).
  exists n, k. split; [exact Hnk|exact Hcalled].
Defined.

Lemma reverse_transform_failure_witness :
  In (EDownThrew MoreExamples.fileD (MkError "d down"))
     (since (Example.start [Example.applied MoreExamples.fileD])
        (snd (executeMigration (MoreExamples.world []) Example.service "down" None "02-01"
                false (Example.start [Example.applied MoreExamples.fileD])))) /\
  fst (executeMigration (MoreExamples.world []) Example.service "down" None "02-01" false
         (Example.start [Example.applied MoreExamples.fileD]))
    = Throws (MkError "d down").
Proof.
  assert (Hin : In (EDownThrew MoreExamples.fileD (MkError "d down"))
                  (since (Example.start [Example.applied MoreExamples.fileD])
                     (snd (executeMigration (MoreExamples.world []) Example.service "down"
                             None "02-01" false
                             (Example.start [Example.applied MoreExamples.fileD])))))
    by (vm_compute; do 5 right; left; reflexivity).
  split; [exact Hin|].
  exact (proj1 (reverse_transform_failure (MoreExamples.world []) Example.service None
                  "02-01" false (Example.start [Example.applied MoreExamples.fileD])
                  MoreExamples.fileD (MkError "d down") Hin)).
Defined.

Lemma missing_down_aborts_reverse_run_witness :
  filter (fun file => JS.includes file "01-01")
    (map filename
       (ledger (Example.start [Example.applied Example.fileA; Example.applied Example.fileB])))
    = [Example.fileA] ++ Example.fileB :: [] /\
  ledger
    (snd (executeMigration Example.allListed Example.service "down" None "01-01" false
            (Example.start [Example.applied Example.fileA; Example.applied Example.fileB])))
    = [Example.applied Example.fileA; Example.applied Example.fileB].
Proof.
  split; [reflexivity|].
  assert (Hne : "01-01" <> "") by discriminate.
  exact (proj1 (missing_down_aborts_reverse_run Example.allListed Example.service None
                  "01-01" false
                  (Example.start [Example.applied Example.fileA; Example.applied Example.fileB])
                  [Example.fileC; Example.fileA; Example.fileB]
                  [Example.fileA] [] Example.fileB
                  {| up := Some (Example.boom "b up"); down := None |}
                  Hne eq_refl eq_refl eq_refl eq_refl eq_refl)).
Defined.

Lemma backup_action_lists_directory_first_witness :
  ledger (snd (migrate Example.allListed Example.service ["node"; "migrate.js"; "backup"]
                 None (Example.start [Example.applied Example.fileA])))
    = [Example.applied Example.fileA].
Proof.
  exact (proj1 (backup_action_lists_directory_first Example.allListed Example.service
                  ["node"; "migrate.js"; "backup"] None
                  (Example.start [Example.applied Example.fileA]) eq_refl)).
Defined.

Lemma create_writes_one_file_witness :
  "Add_Users" <> "" /\
  ledger (snd (migrate Example.allListed Example.service
                 ["node"; "migrate.js"; "create"; "Add_Users"] None (Example.start [])))
    = [].
Proof.
  assert (Hne : "Add_Users" <> "") by discriminate.
  split; [exact Hne|].
  exact (proj1 (create_writes_one_file Example.allListed Example.service
                  ["node"; "migrate.js"; "create"; "Add_Users"] None (Example.start [])
                  "Add_Users" eq_refl eq_refl Hne)).
Defined.

Lemma unknown_action_prints_usage_witness :
  fst (migrate Example.allListed Example.service ["node"; "migrate.js"; "status"] None
         (Example.start [])) = Done tt.
Proof.
  rewrite (unknown_action_prints_usage Example.allListed Example.service
             ["node"; "migrate.js"; "status"] None (Example.start []));
    [reflexivity|discriminate..].
Defined.


Lemma getRepositories_stops_at_first_rejection_witness :
  getRepositories MoreExamples.app_getRepository
    ([("UserRepository", "User")] ++ ("BrokenRepository", "Broken")
       :: [("OrderRepository", "Order")])
  = (Throws (MkError "The key is not bound"), ["User"; "Broken"]).
Proof.
  apply (getRepositories_stops_at_first_rejection MoreExamples.app_getRepository
           [("UserRepository", "User")] [("OrderRepository", "Order")]
           "BrokenRepository" "Broken" (MkError "The key is not bound")).
  - vm_compute. constructor; [intros []|constructor].
  - intros k c [H|[]]. inversion H; subst. eexists; reflexivity.
  - reflexivity.
Defined.
